(** * github-brain-raycast: the MCP search client of [src/search.tsx]

    A shallow embedding of the protocol client ([callMCPSearch],
    [parseMCPResponse], [parseSearchResults]) and the properties its
    specification states about it.

    Conventions of the embedding.
    - A JavaScript string is the list of its UTF-16 code units ([str]).
    - A value produced by [JSON.parse] is a [JSValue]; a number is an IEEE
      754 binary64 value, the one nearest to the decimal literal (ties to
      even), in the Standard Library's specification of floats.
    - The session of one [callMCPSearch] call is a record of the closure
      variables of the promise executor together with the log of the effects
      performed so far (writes to stdin, [kill], [clearTimeout], [resolve],
      [reject]); each event handler is a function on that record. *)

From Stdlib Require Import List Bool Arith NArith ZArith Lia.
From Stdlib Require Import Strings.String Strings.Ascii.
From Stdlib Require Import Floats.SpecFloat.
Import ListNotations.

Set Implicit Arguments.

(* ================================================================== *)
(** ** JavaScript strings *)
(* ================================================================== *)

Module JsString.

(** A UTF-16 code unit. *)
Definition char := N.

Definition str := list char.

(** Text written in this file: the code units of an ASCII literal. *)
Definition js (s : string) : str :=
  map N_of_ascii (list_ascii_of_string s).

(** Same, with every apostrophe standing for a double quote (34) and every
    vertical bar for a line feed (10): used to write JSON text and
    multi-line payloads on one line. *)
Definition jsq (s : string) : str :=
  map (fun c => if N.eqb c 39 then 34%N else if N.eqb c 124 then 10%N else c)
      (js s).

Definition LF : char := 10%N.

Definition eqb_str (a b : str) : bool :=
  if list_eq_dec N.eq_dec a b then true else false.

Definition isEmpty (s : str) : bool :=
  match s with [] => true | _ => false end.

(** ECMAScript LineTerminator: LF, CR, LS, PS. *)
Definition isLineTerminator (c : char) : bool :=
  (N.eqb c 10 || N.eqb c 13 || N.eqb c 8232 || N.eqb c 8233)%bool.

(** ECMAScript WhiteSpace or LineTerminator: what [String.prototype.trim]
    removes and what the regular-expression class [\s] matches. *)
Definition isSpace (c : char) : bool :=
  (N.leb 9 c && N.leb c 13
   || N.eqb c 32 || N.eqb c 160 || N.eqb c 5760
   || N.leb 8192 c && N.leb c 8202
   || N.eqb c 8232 || N.eqb c 8233 || N.eqb c 8239 || N.eqb c 8287
   || N.eqb c 12288 || N.eqb c 65279)%bool.

Fixpoint trimStart (s : str) : str :=
  match s with
  | c :: r => if isSpace c then trimStart r else s
  | [] => []
  end.

Definition trimEnd (s : str) : str := rev (trimStart (rev s)).

(** [s.trim()] *)
Definition trim (s : str) : str := trimEnd (trimStart s).

(** [!s.trim()] *)
Definition isBlank (s : str) : bool := isEmpty (trim s).

(** [s.startsWith(p)] *)
Fixpoint startsWith (p s : str) : bool :=
  match p, s with
  | [], _ => true
  | a :: p', b :: s' => N.eqb a b && startsWith p' s'
  | _ :: _, [] => false
  end.

(** Puts one more code unit in front of the first piece. *)
Definition consHead (c : char) (pieces : list str) : list str :=
  match pieces with
  | p :: ps => (c :: p) :: ps
  | [] => [[c]]
  end.

(** [s.split(sep)] for a non-empty separator string [sep]: the text is cut at
    every occurrence of [sep] found scanning from the left, an occurrence
    starting where the previous one ended at the earliest.  [skip] counts the
    code units of the occurrence under way that are still to be passed. *)
Fixpoint splitFrom (sep : str) (skip : nat) (s : str) : list str :=
  match s with
  | [] => [[]]
  | c :: r =>
      match skip with
      | S k => splitFrom sep k r
      | O =>
          if startsWith sep s
          then [] :: splitFrom sep (List.length sep - 1) r
          else consHead c (splitFrom sep 0 r)
      end
  end.

Definition split (sep s : str) : list str := splitFrom sep 0 s.

(** [pieces.join(sep)] *)
Fixpoint join (sep : str) (pieces : list str) : str :=
  match pieces with
  | [] => []
  | [p] => p
  | p :: ps => p ++ sep ++ join sep ps
  end.

(** [s.includes(t)] *)
Fixpoint includes (t s : str) : bool :=
  startsWith t s ||
  match s with
  | [] => false
  | _ :: r => includes t r
  end.

End JsString.
Import JsString.

(* ================================================================== *)
(** ** The regular expressions of [parseSearchResults] *)
(* ================================================================== *)

Module Regex.

(** The character classes the source's patterns use. *)
Inductive cls :=
| Lit (c : char)     (* a literal character *)
| Space              (* \s *)
| Dot.               (* .  (no [s] flag: any unit but a line terminator) *)

Definition accepts (k : cls) (c : char) : bool :=
  match k with
  | Lit a => N.eqb a c
  | Space => isSpace c
  | Dot => negb (isLineTerminator c)
  end.

(** The pattern items the source's patterns use: [x], [x*] and the
    capturing group [(x+)]. *)
Inductive item :=
| One (k : cls)
| Star (k : cls)
| GroupPlus (k : cls).

(** A pattern anchored at both ends, [/^ ... $/]. *)
Definition pattern := list item.

Definition lits (s : string) : pattern := map (fun c => One (Lit c)) (js s).

(** [line.match(/^...$/)] by backtracking, quantifiers greedy: [None] is the
    [null] of a failed match, [Some caps] lists the captured groups. *)
Fixpoint exec (p : pattern) (s : str) {struct p} : option (list str) :=
  match p with
  | [] => match s with [] => Some [] | _ => None end
  | One k :: p' =>
      match s with
      | c :: r => if accepts k c then exec p' r else None
      | [] => None
      end
  | Star k :: p' =>
      (fix star (s : str) : option (list str) :=
         match s with
         | c :: r =>
             if accepts k c
             then match star r with
                  | Some caps => Some caps
                  | None => exec p' s
                  end
             else exec p' s
         | [] => exec p' []
         end) s
  | GroupPlus k :: p' =>
      (fix plus (taken : str) (s : str) : option (list str) :=
         match s with
         | c :: r =>
             if accepts k c
             then match plus (taken ++ [c]) r with
                  | Some caps => Some caps
                  | None =>
                      match exec p' r with
                      | Some caps => Some ((taken ++ [c]) :: caps)
                      | None => None
                      end
                  end
             else None
         | [] => None
         end) [] s
  end.

(** [m[1]] of a successful match. *)
Definition group1 (p : pattern) (s : str) : option str :=
  match exec p s with
  | Some (g :: _) => Some g
  | _ => None
  end.

(** [/^##\s*(.+)$/] *)
Definition titleRe : pattern := lits "##" ++ [Star Space; GroupPlus Dot].

(** [/^-\s*<label>:\s*(.+)$/] *)
Definition fieldRe (label : string) : pattern :=
  lits "-" ++ [Star Space] ++ lits label ++ lits ":" ++
  [Star Space; GroupPlus Dot].

End Regex.

(* ================================================================== *)
(** ** JavaScript values, exceptions and [JSON.parse] *)
(* ================================================================== *)

Module Json.

(** A number literal of JSON text, exact:
    [(-1)^negative * mantissa * 10^exponent]. *)
Record Decimal := mkDecimal { negative : bool; mantissa : N; exponent : Z }.

(** A Number value: an IEEE 754 binary64 float (53 bits of precision,
    exponent of the infinities 1024). *)
Definition JSNum := spec_float.

(** The Number value of an integer: the nearest float, ties to even. *)
Definition numOfZ (z : Z) : JSNum := binary_normalize 53 1024 z 0 false.

(** The Number value of a literal: the float nearest to its exact value,
    ties to even; a value too small in magnitude becomes a zero of the
    literal's sign, one too large an infinity.  A literal with a negative
    power of ten is the quotient of its mantissa by a power of ten, rounded
    once. *)
Definition toDouble (d : Decimal) : JSNum :=
  if Z.leb 0 (exponent d) then
    binary_normalize 53 1024
      (cond_Zopp (negative d) (Z.of_N (mantissa d) * 10 ^ exponent d)) 0
      (negative d)
  else
    match mantissa d with
    | N0 => S754_zero (negative d)
    | Npos m =>
        let '(q, e, l) :=
          SFdiv_core_binary 53 1024 (Zpos m) 0 (10 ^ (- exponent d)) 0 in
        binary_round_aux 53 1024 (negative d) q e l
    end.

#[local] Set Warnings "-register-all".

Inductive JSValue :=
| JUndefined
| JNull
| JBool (b : bool)
| JNum (n : JSNum)
| JStr (s : str)
| JArr (items : list JSValue)
| JObj (members : list (str * JSValue)).

Definition JInt (z : Z) : JSValue := JNum (numOfZ z).

(** [x === k] for a number [x] and an integer literal [k]: the comparison
    of IEEE 754 (the two zeros are equal, NaN equals nothing). *)
Definition numIs (x : JSNum) (k : N) : bool := SFeqb x (numOfZ (Z.of_N k)).

(** [v === k] *)
Definition strictEqNum (v : JSValue) (k : N) : bool :=
  match v with
  | JNum x => numIs x k
  | _ => false
  end.

(** ToBoolean *)
Definition truthy (v : JSValue) : bool :=
  match v with
  | JUndefined | JNull => false
  | JBool b => b
  | JNum (S754_zero _) | JNum S754_nan => false
  | JNum _ => true
  | JStr s => negb (isEmpty s)
  | JArr _ | JObj _ => true
  end.

(** [a || b] *)
Definition orElse (a b : JSValue) : JSValue := if truthy a then a else b.

(** The text of an error message.  A template literal keeps the values it
    interpolates as they are: ToString of an arbitrary value is not part of
    this model. *)
Inductive Piece :=
| Text (s : str)
| Interp (v : JSValue).

Definition Message := list Piece.

(** A thrown [Error] object, observed through its [message]. *)
Record JsError := mkError { message : Message }.

(** Outcome of evaluating code that may throw. *)
Inductive Completion (A : Type) :=
| Normal (a : A)
| Throw (e : JsError).
Arguments Normal {A} a.
Arguments Throw {A} e.

Definition bind {A B} (c : Completion A) (k : A -> Completion B)
  : Completion B :=
  match c with
  | Normal a => k a
  | Throw e => Throw e
  end.

(** An object literal or parsed object keeps its members in insertion order;
    a key written twice holds the value written last. *)
Fixpoint lookup (k : str) (ms : list (str * JSValue)) : JSValue :=
  match ms with
  | [] => JUndefined
  | (k', v) :: rest =>
      if eqb_str k k' && negb (existsb (fun kv => eqb_str k (fst kv)) rest)
      then v
      else lookup k rest
  end.

Definition typeError : JsError := mkError [Text (js "TypeError")].
Definition syntaxError : JsError := mkError [Text (js "SyntaxError")].

(** [v.name] for one of the names the source reads ([id], [result], [error],
    [message], [content], [text]): none of them is a property of a built-in
    prototype, so only an object can hold it; reading from [null] or
    [undefined] throws a TypeError. *)
Definition get (v : JSValue) (name : string) : Completion JSValue :=
  match v with
  | JUndefined | JNull => Throw typeError
  | JObj ms => Normal (lookup (js name) ms)
  | _ => Normal JUndefined
  end.

(** [v[0]] *)
Definition index0 (v : JSValue) : Completion JSValue :=
  match v with
  | JUndefined | JNull => Throw typeError
  | JArr (x :: _) => Normal x
  | JStr (c :: _) => Normal (JStr [c])
  | JObj ms => Normal (lookup (js "0") ms)
  | _ => Normal JUndefined
  end.

(** [v?.name] *)
Definition getOpt (v : JSValue) (name : string) : Completion JSValue :=
  match v with
  | JUndefined | JNull => Normal JUndefined
  | _ => get v name
  end.

(** *** The JSON grammar (ECMA-404), as [JSON.parse] reads it *)

Definition isJsonWs (c : char) : bool :=
  (N.eqb c 32 || N.eqb c 9 || N.eqb c 10 || N.eqb c 13)%bool.

Fixpoint skipWs (s : str) : str :=
  match s with
  | c :: r => if isJsonWs c then skipWs r else s
  | [] => []
  end.

Definition digitVal (c : char) : option N :=
  if (N.leb 48 c && N.leb c 57)%bool then Some (c - 48)%N else None.

Definition hexVal (c : char) : option N :=
  if (N.leb 48 c && N.leb c 57)%bool then Some (c - 48)%N
  else if (N.leb 97 c && N.leb c 102)%bool then Some (c - 87)%N
  else if (N.leb 65 c && N.leb c 70)%bool then Some (c - 55)%N
  else None.

(** The longest run of decimal digits at the front of [s], most significant
    first, folded into [acc]; also counts the digits read. *)
Fixpoint readDigits (s : str) (acc : N) (count : nat) : N * nat * str :=
  match s with
  | c :: r =>
      match digitVal c with
      | Some d => readDigits r (acc * 10 + d)%N (S count)
      | None => (acc, count, s)
      end
  | [] => (acc, count, s)
  end.

(** The characters of a string literal after its opening quote. *)
Fixpoint readString (s : str) (acc : str) : option (str * str) :=
  match s with
  | [] => None
  | c :: r =>
      if N.eqb c 34 then Some (rev acc, r)
      else if N.eqb c 92 then
        match r with
        | e :: r1 =>
            if N.eqb e 117 then
              match r1 with
              | h1 :: h2 :: h3 :: h4 :: r2 =>
                  match hexVal h1, hexVal h2, hexVal h3, hexVal h4 with
                  | Some a, Some b, Some c', Some d =>
                      readString r2 ((a * 4096 + b * 256 + c' * 16 + d)%N :: acc)
                  | _, _, _, _ => None
                  end
              | _ => None
              end
            else if N.eqb e 34 then readString r1 (34%N :: acc)
            else if N.eqb e 92 then readString r1 (92%N :: acc)
            else if N.eqb e 47 then readString r1 (47%N :: acc)
            else if N.eqb e 98 then readString r1 (8%N :: acc)
            else if N.eqb e 102 then readString r1 (12%N :: acc)
            else if N.eqb e 110 then readString r1 (10%N :: acc)
            else if N.eqb e 114 then readString r1 (13%N :: acc)
            else if N.eqb e 116 then readString r1 (9%N :: acc)
            else None
        | [] => None
        end
      else if N.ltb c 32 then None
      else readString r (c :: acc)
  end.

(** A JSON number: an optional minus sign; then a single zero, or a non-zero
    digit and any digits; then optionally a point and one or more digits;
    then optionally [e] or [E], an optional sign and one or more digits. *)
Definition readNumber (s : str) : option (Decimal * str) :=
  let '(neg, s1) :=
    match s with
    | c :: r => if N.eqb c 45 then (true, r) else (false, s)
    | [] => (false, s)
    end in
  let intPart :=
    match s1 with
    | c :: r =>
        if N.eqb c 48 then Some (0%N, r)
        else match readDigits s1 0 0 with
             | (_, O, _) => None
             | (n, S _, r') => Some (n, r')
             end
    | [] => None
    end in
  match intPart with
  | None => None
  | Some (n, s2) =>
      let frac :=
        match s2 with
        | c :: r =>
            if N.eqb c 46 then
              match readDigits r n 0 with
              | (_, O, _) => None
              | (m, S k, r') => Some (m, (- Z.of_nat (S k))%Z, r')
              end
            else Some (n, 0%Z, s2)
        | [] => Some (n, 0%Z, s2)
        end in
      match frac with
      | None => None
      | Some (m, e, s3) =>
          match s3 with
          | c :: r =>
              if (N.eqb c 101 || N.eqb c 69)%bool then
                let '(eneg, r1) :=
                  match r with
                  | sg :: r' =>
                      if N.eqb sg 45 then (true, r')
                      else if N.eqb sg 43 then (false, r')
                      else (false, r)
                  | [] => (false, r)
                  end in
                match readDigits r1 0 0 with
                | (_, O, _) => None
                | (x, S _, r2) =>
                    let ex := if eneg then (- Z.of_N x)%Z else Z.of_N x in
                    Some (mkDecimal neg m (e + ex), r2)
                end
              else Some (mkDecimal neg m e, s3)
          | [] => Some (mkDecimal neg m e, s3)
          end
      end
  end.

(** One JSON value at the front of the text, and the text after it.
    [readElements] continues an array after its opening bracket,
    [readMembers] an object after its opening brace.  Every call spends one
    unit of [fuel]; two units per code unit of the text are always enough
    ([readValue_fuel] below). *)
Fixpoint readValue (fuel : nat) (s : str) {struct fuel}
  : option (JSValue * str) :=
  match fuel with
  | O => None
  | S f =>
      match skipWs s with
      | [] => None
      | c :: r =>
          if N.eqb c 123 then
            match skipWs r with
            | c1 :: r1 =>
                if N.eqb c1 125 then Some (JObj [], r1) else readMembers f r []
            | [] => None
            end
          else if N.eqb c 91 then
            match skipWs r with
            | c1 :: r1 =>
                if N.eqb c1 93 then Some (JArr [], r1) else readElements f r []
            | [] => None
            end
          else if N.eqb c 34 then
            match readString r [] with
            | Some (t, r1) => Some (JStr t, r1)
            | None => None
            end
          else if startsWith (js "true") (c :: r)
          then Some (JBool true, skipn 4 (c :: r))
          else if startsWith (js "false") (c :: r)
          then Some (JBool false, skipn 5 (c :: r))
          else if startsWith (js "null") (c :: r)
          then Some (JNull, skipn 4 (c :: r))
          else
            match readNumber (c :: r) with
            | Some (x, r1) => Some (JNum (toDouble x), r1)
            | None => None
            end
      end
  end
with readElements (fuel : nat) (s : str) (acc : list JSValue) {struct fuel}
  : option (JSValue * str) :=
  match fuel with
  | O => None
  | S f =>
      match readValue f s with
      | Some (v, r) =>
          match skipWs r with
          | c :: r1 =>
              if N.eqb c 44 then readElements f r1 (v :: acc)
              else if N.eqb c 93 then Some (JArr (rev (v :: acc)), r1)
              else None
          | [] => None
          end
      | None => None
      end
  end
with readMembers (fuel : nat) (s : str) (acc : list (str * JSValue))
  {struct fuel} : option (JSValue * str) :=
  match fuel with
  | O => None
  | S f =>
      match skipWs s with
      | q :: r =>
          if N.eqb q 34 then
            match readString r [] with
            | Some (k, r1) =>
                match skipWs r1 with
                | c :: r2 =>
                    if N.eqb c 58 then
                      match readValue f r2 with
                      | Some (v, r3) =>
                          match skipWs r3 with
                          | d :: r4 =>
                              if N.eqb d 44
                              then readMembers f r4 ((k, v) :: acc)
                              else if N.eqb d 125
                              then Some (JObj (rev ((k, v) :: acc)), r4)
                              else None
                          | [] => None
                          end
                      | None => None
                      end
                    else None
                | [] => None
                end
            | None => None
            end
          else None
      | [] => None
      end
  end.

(** [JSON.parse(text)]: a SyntaxError is thrown unless the whole text is one
    value with optional white space around it. *)
Definition JSON_parse (text : str) : Completion JSValue :=
  match readValue (2 * List.length text + 2) text with
  | Some (v, rest) =>
      if isEmpty (skipWs rest) then Normal v else Throw syntaxError
  | None => Throw syntaxError
  end.

End Json.
Import Json.

Notation "x <- c ;; k" := (bind c (fun x => k))
  (at level 61, c at next level, right associativity).

(* ================================================================== *)
(** ** The content parser: [parseSearchResults] and [parseMCPResponse] *)
(* ================================================================== *)

Module ContentParser.
Import Regex.

(** [interface SearchResult]; [type] and [state] are plain strings at run
    time (the casts of the source check nothing). *)
Record SearchResult := mkResult {
  title : str;
  url : str;
  repository : str;
  type : str;
  state : str;
  author : str;
  created_at : str
}.

Definition setUrl (v : str) (r : SearchResult) : SearchResult :=
  mkResult (title r) v (repository r) (type r) (state r) (author r)
           (created_at r).
Definition setRepository (v : str) (r : SearchResult) : SearchResult :=
  mkResult (title r) (url r) v (type r) (state r) (author r) (created_at r).
Definition setType (v : str) (r : SearchResult) : SearchResult :=
  mkResult (title r) (url r) (repository r) v (state r) (author r)
           (created_at r).
Definition setState (v : str) (r : SearchResult) : SearchResult :=
  mkResult (title r) (url r) (repository r) (type r) v (author r)
           (created_at r).
Definition setAuthor (v : str) (r : SearchResult) : SearchResult :=
  mkResult (title r) (url r) (repository r) (type r) (state r) v
           (created_at r).
Definition setCreatedAt (v : str) (r : SearchResult) : SearchResult :=
  mkResult (title r) (url r) (repository r) (type r) (state r) (author r) v.

(** [if (m) x = m[1]] *)
Definition assignIf (m : option str) (set : str -> SearchResult -> SearchResult)
  (r : SearchResult) : SearchResult :=
  match m with
  | Some v => set v r
  | None => r
  end.

(** Body of the loop over [lines.slice(1)]: the six matches, then the six
    conditional assignments. *)
Definition scanLine (r : SearchResult) (line : str) : SearchResult :=
  let urlMatch := group1 (fieldRe "URL") line in
  let repoMatch := group1 (fieldRe "Repository") line in
  let typeMatch := group1 (fieldRe "Type") line in
  let stateMatch := group1 (fieldRe "State") line in
  let authorMatch := group1 (fieldRe "Author") line in
  let createdMatch := group1 (fieldRe "Created at") line in
  assignIf createdMatch setCreatedAt
    (assignIf authorMatch setAuthor
      (assignIf stateMatch setState
        (assignIf typeMatch setType
          (assignIf repoMatch setRepository
            (assignIf urlMatch setUrl r))))).

(** The variables of one loop iteration before any field line is read. *)
Definition blank (t : str) : SearchResult :=
  mkResult t [] [] (js "issue") (js "open") [] [].

(** Body of the loop over [sections]: [Some r] when the iteration pushes [r],
    [None] when it pushes nothing. *)
Definition parseSection (section : str) : option SearchResult :=
  let lines := split [LF] (trim section) in
  if Nat.ltb (List.length lines) 2 then None
  else
    match group1 titleRe (hd [] lines) with
    | None => None
    | Some t =>
        let r := fold_left scanLine (tl lines) (blank t) in
        if negb (isEmpty (url r)) && negb (isEmpty (title r))
        then Some r
        else None
    end.

(** [results.push(...)] when the iteration pushes. *)
Definition pushSection (results : list SearchResult) (section : str)
  : list SearchResult :=
  match parseSection section with
  | Some r => results ++ [r]
  | None => results
  end.

(** [content.split("---").filter((section) => section.trim())] *)
Definition sectionsOf (content : str) : list str :=
  filter (fun section => negb (isBlank section)) (split (js "---") content).

(** The [results] array when the loop over [sections] ends. *)
Definition collect (sections : list str) : list SearchResult :=
  fold_left pushSection sections [].

Definition parseSearchResults (content : str) : list SearchResult :=
  let sections := sectionsOf content in
  let results := collect sections in
  firstn 20 results.

(** [parseSearchResults(content)] where [content] is whatever value
    [response.result.content[0]?.text || ""] is: a value that is not a string
    has no [split] method. *)
Definition callParseSearchResults (content : JSValue)
  : Completion (list SearchResult) :=
  match content with
  | JStr t => Normal (parseSearchResults t)
  | _ => Throw typeError
  end.

(** Body of the [try] block of [parseMCPResponse] for one line:
    [Normal (Some rs)] is [return rs], [Normal None] is reaching the end of
    the block. *)
Definition tryResponseLine (line : str)
  : Completion (option (list SearchResult)) :=
  response <- JSON_parse line ;;
  result <- get response "result" ;;
  hasContent <- (if truthy result
                 then c <- get result "content" ;; Normal (truthy c)
                 else Normal false) ;;
  if hasContent : bool then
    contentArr <- get result "content" ;;
    first <- index0 contentArr ;;
    text <- getOpt first "text" ;;
    rs <- callParseSearchResults (orElse text (JStr [])) ;;
    Normal (Some rs)
  else
    error <- get response "error" ;;
    if truthy error then
      m <- get error "message" ;;
      Throw (mkError [Text (js "MCP server error: ");
                      Interp (orElse m (JStr (js "Unknown error")))])
    else Normal None.

(** The loop of [parseMCPResponse]; the [catch] clause is empty, so a line
    whose block throws is passed over like one that returns nothing. *)
Fixpoint parseResponseLines (lines : list str)
  : Completion (list SearchResult) :=
  match lines with
  | [] => Normal []
  | line :: rest =>
      match tryResponseLine line with
      | Normal (Some rs) => Normal rs
      | Normal None => parseResponseLines rest
      | Throw _ => parseResponseLines rest
      end
  end.

Definition parseMCPResponse (responseData : str)
  : Completion (list SearchResult) :=
  let lines :=
    filter (fun line => negb (isBlank line)) (split [LF] responseData) in
  parseResponseLines lines.

End ContentParser.
Import ContentParser.

(* ================================================================== *)
(** ** The session of one [callMCPSearch] call *)
(* ================================================================== *)

Module Session.

(** [interface Preferences] and the part of [process.env] the call reads. *)
Record Host := mkHost {
  githubBrainCommand : str;
  homeDir : str;               (* empty when the preference is not set *)
  HOME : option str            (* process.env.HOME *)
}.

(** The replacement text of [String.prototype.replace] when the pattern is a
    string: [$$], [$&], [$`] and [$'] are expanded, anything else is
    literal. *)
Fixpoint substitution (replacement matched before after : str) : str :=
  match replacement with
  | d :: rest =>
      if N.eqb d 36 then
        match rest with
        | c :: rest' =>
            if N.eqb c 36 then 36%N :: substitution rest' matched before after
            else if N.eqb c 38
            then matched ++ substitution rest' matched before after
            else if N.eqb c 96
            then before ++ substitution rest' matched before after
            else if N.eqb c 39
            then after ++ substitution rest' matched before after
            else d :: substitution rest matched before after
        | [] => [d]
        end
      else d :: substitution rest matched before after
  | [] => []
  end.

(** [expandPath]: a path that starts with [~/] has its first [~], the one at
    index 0, replaced by [process.env.HOME || "~"]. *)
Definition expandPath (host : Host) (path : str) : str :=
  if startsWith (js "~/") path then
    let home :=
      match HOME host with
      | Some h => if isEmpty h then js "~" else h
      | None => js "~"
      end in
    substitution home (js "~") [] (tl path) ++ tl path
  else path.

Definition binaryPath (host : Host) : str :=
  expandPath host (githubBrainCommand host).

(** What the process and the timer can make the event loop call. *)
Inductive Event :=
| StdoutData (data : str)                       (* stdout 'data' *)
| StderrData (data : str)                       (* stderr 'data' *)
| ProcessError (code : option str) (msg : str)  (* 'error': error.code and
                                                   error.message *)
| Close (code : option Z)                       (* 'close'; the code is null
                                                   when a signal ended the
                                                   process *)
| TimerFired.                                   (* the delay has elapsed *)

(** What a handler does to the outside.  [StdinWrite v] is
    [mcpProcess.stdin.write(JSON.stringify(v) + "\n")]. *)
Inductive Effect :=
| StdinWrite (v : JSValue)
| Kill
| ClearTimeout
| Resolve (results : list SearchResult)
| Reject (e : JsError).

(** The closure variables of the promise executor.  [responseTimeout] is
    [Some delay] while the timer is pending; [effects] lists the effects so
    far, oldest first; [framedLines] records, in order, the elements of
    every [lines] array the stdout handler has iterated over (it is not a
    variable of the source). *)
Record Session := mkSession {
  responseData : str;
  errorData : str;
  hasReceivedResponse : bool;
  isInitialized : bool;
  responseTimeout : option N;
  effects : list Effect;
  framedLines : list str
}.

Definition emit (e : Effect) (s : Session) : Session :=
  mkSession (responseData s) (errorData s) (hasReceivedResponse s)
            (isInitialized s) (responseTimeout s) (effects s ++ [e])
            (framedLines s).

(** [clearTimeout(responseTimeout)] *)
Definition clearTimeout (s : Session) : Session :=
  mkSession (responseData s) (errorData s) (hasReceivedResponse s)
            (isInitialized s) None (effects s ++ [ClearTimeout])
            (framedLines s).

Definition setHasReceivedResponse (s : Session) : Session :=
  mkSession (responseData s) (errorData s) true (isInitialized s)
            (responseTimeout s) (effects s) (framedLines s).

Definition setIsInitialized (s : Session) : Session :=
  mkSession (responseData s) (errorData s) (hasReceivedResponse s) true
            (responseTimeout s) (effects s) (framedLines s).

Definition setResponseData (buffer : str) (lines : list str) (s : Session)
  : Session :=
  mkSession buffer (errorData s) (hasReceivedResponse s) (isInitialized s)
            (responseTimeout s) (effects s) (framedLines s ++ lines).

Definition appendErrorData (data : str) (s : Session) : Session :=
  mkSession (responseData s) (errorData s ++ data) (hasReceivedResponse s)
            (isInitialized s) (responseTimeout s) (effects s)
            (framedLines s).

Definition timerGone (s : Session) : Session :=
  mkSession (responseData s) (errorData s) (hasReceivedResponse s)
            (isInitialized s) None (effects s) (framedLines s).

Definition field (name : string) (v : JSValue) : str * JSValue :=
  (js name, v).

Definition initializeRequest : JSValue :=
  JObj [field "jsonrpc" (JStr (js "2.0"));
        field "id" (JInt 1);
        field "method" (JStr (js "initialize"));
        field "params"
          (JObj [field "protocolVersion" (JStr (js "2025-06-18"));
                 field "clientInfo"
                   (JObj [field "name" (JStr (js "raycast-github-brain"));
                          field "version" (JStr (js "1.0.0"))]);
                 field "capabilities" (JObj [])])].

Definition initializedNotification : JSValue :=
  JObj [field "jsonrpc" (JStr (js "2.0"));
        field "method" (JStr (js "notifications/initialized"));
        field "params" (JObj [])].

Definition searchRequest (query : str) : JSValue :=
  JObj [field "jsonrpc" (JStr (js "2.0"));
        field "id" (JInt 2);
        field "method" (JStr (js "tools/call"));
        field "params"
          (JObj [field "name" (JStr (js "search"));
                 field "arguments"
                   (JObj [field "query" (JStr query);
                          field "fields"
                            (JArr [JStr (js "title"); JStr (js "url");
                                   JStr (js "repository");
                                   JStr (js "created_at");
                                   JStr (js "author"); JStr (js "type");
                                   JStr (js "state")])])])].

(** The delay given to [setTimeout], in milliseconds. *)
Definition responseTimeoutDelay : N := 10000.

Definition timeoutError : JsError :=
  mkError [Text (js "MCP request timed out")].

Definition parseFailure (error : JsError) : JsError :=
  mkError (Text (js "Failed to parse MCP response: ") :: message error).

(** [`${code}`]: a number or [null]. *)
Definition codeValue (code : option Z) : JSValue :=
  match code with
  | Some z => JInt z
  | None => JNull
  end.

(** The [errorMessage] the close handler builds. *)
Definition processFailure (host : Host) (code : option Z) (errorData : str)
  : JsError :=
  mkError
    ([Text (js "MCP server exited with code "); Interp (codeValue code);
      Text (js ": "); Text errorData]
     ++ (if negb (isEmpty (homeDir host))
         then [Text (jsq "||Home directory: ");
               Text (expandPath host (homeDir host))]
         else [Text (jsq "||No home directory specified. Using default: ~/.github-brain")])
     ++ [Text (jsq "|Executable: "); Text (binaryPath host)]).

(** The state right after the executor has run: process spawned, timer armed,
    handlers attached, initialize request written.  ([stdin.write] is taken
    not to throw; the console output of the source is not modelled.) *)
Definition start : Session :=
  mkSession [] [] false false (Some responseTimeoutDelay)
            [StdinWrite initializeRequest] [].

(** How an iteration of the loop over [lines] ends. *)
Inductive Flow := Continue | Return.

(** The outer [try] block of the stdout handler for one line; a [Throw] is
    what its [catch] clause receives. *)
Definition tryMessageLine (query line : str) (s : Session)
  : Completion (Session * Flow) :=
  message <- JSON_parse line ;;
  (* if (message.id === 1 && message.result && !isInitialized) *)
  isInitResponse <-
    (id <- get message "id" ;;
     if strictEqNum id 1
     then result <- get message "result" ;;
          Normal (truthy result && negb (isInitialized s))
     else Normal false) ;;
  if isInitResponse : bool then
    Normal (emit (StdinWrite (searchRequest query))
              (emit (StdinWrite initializedNotification)
                 (setIsInitialized s)),
            Continue)
  else
    (* if (message.id === 2 && message.result) *)
    isSearchResponse <-
      (id <- get message "id" ;;
       if strictEqNum id 2
       then result <- get message "result" ;; Normal (truthy result)
       else Normal false) ;;
    if isSearchResponse : bool then
      let s1 := clearTimeout (setHasReceivedResponse s) in
      match parseMCPResponse line with
      | Normal results => Normal (emit (Resolve results) (emit Kill s1), Return)
      | Throw error =>
          Normal (emit (Reject (parseFailure error)) (emit Kill s1), Return)
      end
    else
      (* if (message.error) *)
      error <- get message "error" ;;
      if truthy error then
        m <- get error "message" ;;
        Normal (emit (Reject (mkError
                        [Text (js "MCP error: ");
                         Interp (orElse m (JStr (js "Unknown error")))]))
                  (emit Kill (clearTimeout s)),
                Return)
      else Normal (s, Continue).

(** One iteration of the loop over [lines]. *)
Definition handleLine (query line : str) (s : Session) : Session * Flow :=
  if isBlank line then (s, Continue)
  else
    match tryMessageLine query line s with
    | Normal out => out
    | Throw _ => (s, Continue)       (* "Skipping unparseable message" *)
    end.

Fixpoint handleLines (query : str) (lines : list str) (s : Session)
  : Session :=
  match lines with
  | [] => s
  | line :: rest =>
      match handleLine query line s with
      | (s', Continue) => handleLines query rest s'
      | (s', Return) => s'
      end
  end.

(** The framing step at the head of the stdout handler: the buffer with the
    new data appended is split on the line feed, the last piece is kept. *)
Definition frame (buffer data : str) : list str * str :=
  let lines := split [LF] (buffer ++ data) in
  (removelast lines, last lines []).

(** [mcpProcess.stdout.on("data", ...)] *)
Definition onStdoutData (query data : str) (s : Session) : Session :=
  let '(lines, buffer) := frame (responseData s) data in
  handleLines query lines (setResponseData buffer lines s).

(** [mcpProcess.stderr.on("data", ...)] *)
Definition onStderrData (data : str) (s : Session) : Session :=
  appendErrorData data s.

(** [mcpProcess.on("error", ...)] *)
Definition onError (host : Host) (code : option str) (msg : str)
  (s : Session) : Session :=
  let s1 := clearTimeout s in
  match code with
  | Some c =>
      if eqb_str c (js "ENOENT") then
        emit (Reject (mkError
                [Text (jsq "GitHub Brain executable not found: '");
                 Text (binaryPath host);
                 Text (jsq "'. Please check the executable path in preferences.")]))
             s1
      else emit (Reject (mkError [Text (js "Failed to start MCP server: ");
                                  Text msg])) s1
  | None => emit (Reject (mkError [Text (js "Failed to start MCP server: ");
                                   Text msg])) s1
  end.

(** [mcpProcess.on("close", ...)] *)
Definition onClose (host : Host) (code : option Z) (s : Session) : Session :=
  let s1 := clearTimeout s in
  if negb (hasReceivedResponse s1) then
    if match code with Some 0%Z => false | _ => true end   (* code !== 0 *)
    then emit (Reject (processFailure host code (errorData s1))) s1
    else
      match parseMCPResponse (responseData s1) with
      | Normal results => emit (Resolve results) s1
      | Throw error => emit (Reject (parseFailure error)) s1
      end
  else s1.

(** The callback given to [setTimeout]. *)
Definition onTimeout (s : Session) : Session :=
  if negb (hasReceivedResponse s)
  then emit (Reject timeoutError) (emit Kill s)
  else s.

(** The event loop: each event runs its handler to completion.  The timer is
    one-shot: its callback runs only while the timer is pending, and the
    timer is no longer pending once it has run or been cleared. *)
Definition step (host : Host) (query : str) (s : Session) (e : Event)
  : Session :=
  match e with
  | StdoutData data => onStdoutData query data s
  | StderrData data => onStderrData data s
  | ProcessError code msg => onError host code msg s
  | Close code => onClose host code s
  | TimerFired =>
      match responseTimeout s with
      | Some _ => onTimeout (timerGone s)
      | None => s
      end
  end.

Definition runFrom (host : Host) (query : str) (s : Session)
  (events : list Event) : Session :=
  fold_left (step host query) events s.

(** The session of [callMCPSearch(query)] after the given events. *)
Definition run (host : Host) (query : str) (events : list Event) : Session :=
  runFrom host query start events.

(** What [callMCPSearch] does before it returns its promise. *)
Inductive Call :=
| Immediate (results : list SearchResult)   (* no process is spawned *)
| Spawned (s : Session).

Definition callMCPSearch (query : str) : Call :=
  if isBlank query then Immediate [] else Spawned start.

(** *** Observations on the effect log *)

Definition isKill (e : Effect) : bool :=
  match e with Kill => true | _ => false end.

Definition isSettle (e : Effect) : bool :=
  match e with Resolve _ | Reject _ => true | _ => false end.

Definition isWrite (e : Effect) : bool :=
  match e with StdinWrite _ => true | _ => false end.

(** Number of [mcpProcess.kill()] calls so far. *)
Definition kills (s : Session) : nat :=
  List.length (filter isKill (effects s)).

(** Number of calls to [resolve] or [reject] so far. *)
Definition settles (s : Session) : nat :=
  List.length (filter isSettle (effects s)).

(** The values written to stdin so far, in order. *)
Definition writes (s : Session) : list JSValue :=
  flat_map (fun e => match e with StdinWrite v => [v] | _ => [] end)
           (effects s).

(** The state of the promise: that of the first call to [resolve] or
    [reject]; later calls leave a settled promise as it is. *)
Inductive Outcome :=
| Fulfilled (results : list SearchResult)
| Rejected (e : JsError).

Fixpoint firstSettle (log : list Effect) : option Outcome :=
  match log with
  | [] => None
  | Resolve rs :: _ => Some (Fulfilled rs)
  | Reject e :: _ => Some (Rejected e)
  | _ :: rest => firstSettle rest
  end.

Definition outcome (s : Session) : option Outcome := firstSettle (effects s).

(** The text all stdout data of an event sequence adds up to. *)
Definition stdoutText (events : list Event) : str :=
  flat_map (fun e => match e with StdoutData d => d | _ => [] end) events.

End Session.
Import Session.

(* ================================================================== *)
(** ** Vocabulary of the properties *)
(* ================================================================== *)

Module Props.
Import Regex.

(** [xs] is [ys] with some elements left out, the others in their order. *)
Inductive Subsequence {A : Type} : list A -> list A -> Prop :=
| sub_nil : Subsequence [] []
| sub_skip : forall x xs ys, Subsequence xs ys -> Subsequence xs (x :: ys)
| sub_keep : forall x xs ys, Subsequence xs ys -> Subsequence (x :: xs) (x :: ys).

Definition orDefault (d : str) (o : option str) : str :=
  match o with
  | Some v => v
  | None => d
  end.

(** The records one block contributes: one or none. *)
Definition accepted (block : str) : list SearchResult :=
  match parseSection block with
  | Some r => [r]
  | None => []
  end.

(** The lines of a block, outer white space removed. *)
Definition blockLines (block : str) : list str := split [LF] (trim block).

(** The title the heading line of a block yields. *)
Definition headingTitle (block : str) : option str :=
  group1 titleRe (hd [] (blockLines block)).

(** The value of the last line among [lines] that is a field line for
    [label]. *)
Definition lastMatch (label : string) (lines : list str) : option str :=
  fold_left
    (fun found line =>
       match group1 (fieldRe label) line with
       | Some v => Some v
       | None => found
       end)
    lines None.

(** The value a block gives for the field [label], when it has such a line
    after its heading. *)
Definition fieldValue (label : string) (block : str) : option str :=
  lastMatch label (tl (blockLines block)).

(** A line that is a field line for none of the six labels. *)
Definition noFieldLine (line : str) : bool :=
  match group1 (fieldRe "URL") line, group1 (fieldRe "Repository") line,
        group1 (fieldRe "Type") line, group1 (fieldRe "State") line,
        group1 (fieldRe "Author") line, group1 (fieldRe "Created at") line
  with
  | None, None, None, None, None, None => true
  | _, _, _, _, _, _ => false
  end.

(** The reading of the format in the specification's words: blocks are
    separated by lines that consist of three hyphens.  [current] holds the
    lines of the block under way, latest first. *)
Fixpoint blocksByLine (lines : list str) (current : list str) : list str :=
  match lines with
  | [] => [join [LF] (rev current)]
  | line :: rest =>
      if eqb_str line (js "---")
      then join [LF] (rev current) :: blocksByLine rest []
      else blocksByLine rest (line :: current)
  end.

Definition blocksAtDashLines (content : str) : list str :=
  blocksByLine (split [LF] content) [].

(** What the specification's reading would give for a payload. *)
Definition resultsAtDashLines (content : str) : list SearchResult :=
  firstn 20 (flat_map accepted (blocksAtDashLines content)).

(** The line decodes to a message whose [id] is [k] and whose [result] is
    truthy. *)
Definition carriesResult (k : N) (line : str) : bool :=
  match JSON_parse line with
  | Normal message =>
      match get message "id", get message "result" with
      | Normal id, Normal result => strictEqNum id k && truthy result
      | _, _ => false
      end
  | Throw _ => false
  end.

(** [response.result.content[0]?.text || ""] of a line whose message has a
    truthy [result.content]. *)
Definition payloadText (line : str) : option JSValue :=
  match JSON_parse line with
  | Normal response =>
      match get response "result" with
      | Normal result =>
          match get result "content" with
          | Normal content =>
              if truthy result && truthy content then
                match index0 content with
                | Normal first =>
                    match getOpt first "text" with
                    | Normal text => Some (orElse text (JStr []))
                    | Throw _ => None
                    end
                | Throw _ => None
                end
              else None
          | Throw _ => None
          end
      | Throw _ => None
      end
  | Throw _ => None
  end.

(** A value written to stdin that is a request with [id] 2. *)
Definition isToolCall (v : JSValue) : bool :=
  match get v "id" with
  | Normal id => strictEqNum id 2
  | Throw _ => false
  end.

(** A value written to stdin that is the [notifications/initialized]
    message. *)
Definition isInitializedNote (v : JSValue) : bool :=
  match get v "method" with
  | Normal (JStr m) => eqb_str m (js "notifications/initialized")
  | _ => false
  end.

Definition isExitOrTimer (e : Event) : bool :=
  match e with
  | Close _ | TimerFired => true
  | _ => false
  end.


(** The exit code is not the number 0. *)
Definition nonZero (code : option Z) : bool :=
  match code with
  | Some 0%Z => false
  | _ => true
  end.

(** *** Invariants of a session *)

(** The ways one iteration of the loop over [lines] can end. *)
Inductive LineStep (query line : str) (s : Session) : Session * Flow -> Prop :=
| ls_skip : LineStep query line s (s, Continue)
| ls_handshake :
    carriesResult 1 line = true ->
    isBlank line = false ->
    isInitialized s = false ->
    LineStep query line s
      (emit (StdinWrite (searchRequest query))
         (emit (StdinWrite initializedNotification) (setIsInitialized s)),
       Continue)
| ls_response : forall rs,
    carriesResult 2 line = true ->
    parseMCPResponse line = Normal rs ->
    LineStep query line s
      (emit (Resolve rs) (emit Kill (clearTimeout (setHasReceivedResponse s))),
       Return)
| ls_error : forall e,
    LineStep query line s
      (emit (Reject e) (emit Kill (clearTimeout s)), Return).

(** The buffer and the lines framed so far. *)
Definition buffers (s : Session) : str * list str :=
  (responseData s, framedLines s).

(** The handshake invariant: what has been written, by the flag. *)
Definition Handshake (query : str) (s : Session) : Prop :=
  (isInitialized s = false /\ writes s = [initializeRequest]) \/
  (isInitialized s = true /\
   writes s = [initializeRequest; initializedNotification;
               searchRequest query]).


(** The log of [s'] continues the log of [s]. *)
Definition Grows (s s' : Session) : Prop :=
  exists more, effects s' = effects s ++ more.

(** An unsettled session still has its timer, has not killed and has
    received no response. *)
Definition Pending (s : Session) : Prop :=
  outcome s = None ->
  responseTimeout s = Some responseTimeoutDelay /\
  kills s = 0 /\
  hasReceivedResponse s = false.

(** The last match for [label], or [d] when no line matches. *)
Definition pick (label : string) (lines : list str) (d : str) : str :=
  orDefault d (lastMatch label lines).

(** The separator of [parseSearchResults]. *)
Definition dashes : str := js "---".

(** The pieces of a payload between separators that are not blank: the
    blocks the loop of [parseSearchResults] goes over. *)
Definition nonBlankPieces (content : str) : list str :=
  filter (fun piece => negb (isBlank piece)) (split dashes content).

(** Fuel [f] is never the reason a reader succeeds: what it reads with [f]
    it reads with any fuel of at least twice the number of code units it
    consumes. *)
Definition Enough (f : nat) : Prop :=
  (forall s v r,
      readValue f s = Some (v, r) ->
      List.length r < List.length s /\
      forall g, 2 * (List.length s - List.length r) <= g + 1 ->
                readValue g s = Some (v, r)) /\
  (forall s acc v r,
      readElements f s acc = Some (v, r) ->
      List.length r + 1 < List.length s /\
      forall g, 2 * (List.length s - List.length r) <= g + 2 ->
                readElements g s acc = Some (v, r)) /\
  (forall s acc v r,
      readMembers f s acc = Some (v, r) ->
      List.length r + 1 < List.length s /\
      forall g, 2 * (List.length s - List.length r) <= g + 2 ->
                readMembers g s acc = Some (v, r)).

(** A settled session has no pending timer. *)
Definition Cleared (s : Session) : Prop :=
  outcome s <> None -> responseTimeout s = None.

(** *** Sample data *)

Definition sampleHost : Host :=
  mkHost (js "/usr/local/bin/github-brain") [] (Some (js "/home/me")).

Definition sampleQuery : str := js "crash".

Definition initializeResponse : str :=
  jsq "{'jsonrpc':'2.0','id':1,'result':{'protocolVersion':'2025-06-18'}}".

(** A tool-call response with one record in its payload. *)
Definition searchResponse : str :=
  jsq "{'jsonrpc':'2.0','id':2,'result':{'content':[{'type':'text','text':'## Fix crash\n- URL: https://github.com/org/repo/issues/1'}]}}".

(** A tool-call response whose payload text is an object, not a string. *)
Definition objectTextResponse : str :=
  jsq "{'jsonrpc':'2.0','id':2,'result':{'content':[{'type':'text','text':{'rows':[]}}]}}".

(** A tool-call response that carries an error beside a result without
    content. *)
Definition errorResultResponse : str :=
  jsq "{'jsonrpc':'2.0','id':2,'result':{'isError':true},'error':{'code':-32000,'message':'index is locked'}}".


(** A block with a heading and a URL line; the title is the letter a
    written [i + 1] times. *)
Definition goodBlock (i : nat) : str :=
  js "## " ++ repeat 97%N (S i) ++ jsq "|- URL: u".

(** The record of [goodBlock i]. *)
Definition goodRecord (i : nat) : SearchResult :=
  mkResult (repeat 97%N (S i)) (js "u") [] (js "issue") (js "open") [] [].

(** A payload of [n] such blocks, a line of three hyphens between them. *)
Definition goodBlocks (n : nat) : str :=
  join (jsq "|---|") (map goodBlock (seq 0 n)).

Definition fixCrash : SearchResult :=
  mkResult (js "Fix crash") (js "https://github.com/org/repo/issues/1")
           [] (js "issue") (js "open") [] [].

End Props.
Import Props.

(* ================================================================== *)
(** ** The display mapping: [getIconAndColor] *)
(* ================================================================== *)

Module Display.

(** The members of Raycast's [Icon] and [Color] the mapping uses. *)
Inductive Icon := Circle | Code | CheckCircle | SpeechBubble.

Inductive Color := Green | Purple | Red | SecondaryText.

(** The [switch] on the template literal [`${type}:${state}`]; the cases are
    compared with [===] from the first down. *)
Definition getIconAndColor (type state : str) : Icon * Color :=
  let key := type ++ js ":" ++ state in
  if eqb_str key (js "issue:open") then (Circle, Green)
  else if eqb_str key (js "issue:closed") then (Circle, Purple)
  else if eqb_str key (js "pull_request:open") then (Code, Green)
  else if eqb_str key (js "pull_request:closed") then (Code, Red)
  else if eqb_str key (js "pull_request:merged") then (CheckCircle, Purple)
  else if eqb_str key (js "discussion:open") then (SpeechBubble, Green)
  else (Circle, SecondaryText).

End Display.
Import Display.

(* ================================================================== *)
(** ** Vocabulary of the further properties *)
(* ================================================================== *)

Module MoreProps.
Import Regex.

(** The type and state pairs the display mapping has a case for. *)
Definition listedPairs : list (str * str) :=
  [(js "issue", js "open"); (js "issue", js "closed");
   (js "pull_request", js "open"); (js "pull_request", js "closed");
   (js "pull_request", js "merged"); (js "discussion", js "open")].

(** The text all stderr data of an event sequence adds up to. *)
Definition stderrText (events : list Event) : str :=
  flat_map (fun e => match e with StderrData d => d | _ => [] end) events.

Definition isStdoutData (e : Event) : bool :=
  match e with
  | StdoutData _ => true
  | _ => false
  end.

Definition hasChar (c : char) (s : str) : bool := existsb (N.eqb c) s.

Definition hasLineTerminator (s : str) : bool := existsb isLineTerminator s.

(** A field text that a line of the record format carries unchanged: not
    empty, without line terminator, not starting with white space. *)
Definition plainValue (v : str) : bool :=
  match v with
  | [] => false
  | c :: _ => negb (isSpace c) && negb (hasLineTerminator v)
  end.

(** A line that the stdout handler passes over in every state: blank, or
    not JSON text. *)
Definition noiseLine (line : str) : bool :=
  isBlank line ||
  match JSON_parse line with
  | Throw _ => true
  | Normal _ => false
  end.

(** [message.error] of a line that decodes, when it is truthy. *)
Definition errorOf (line : str) : option JSValue :=
  match JSON_parse line with
  | Normal message =>
      match get message "error" with
      | Normal error => if truthy error then Some error else None
      | Throw _ => None
      end
  | Throw _ => None
  end.


(** The classes of the capturing groups of a pattern, in order. *)
Fixpoint groupsOf (p : pattern) : list cls :=
  match p with
  | [] => []
  | GroupPlus k :: p' => k :: groupsOf p'
  | _ :: p' => groupsOf p'
  end.

(** The session but for its buffer and its record of framed lines. *)
Definition core (s : Session)
  : str * bool * bool * option N * list Effect :=
  (errorData s, hasReceivedResponse s, isInitialized s, responseTimeout s,
   effects s).

(** The payload text of a response line, when the line has one that is a
    string: the lines [parseMCPResponse] can return from. *)
Definition recordsText (line : str) : option str :=
  match payloadText line with
  | Some (JStr t) => Some t
  | _ => None
  end.

(** The labels of the field lines. *)
Definition labels : list string :=
  ["URL"; "Repository"; "Type"; "State"; "Author"; "Created at"]%string.

(** A record none of whose fields holds a line terminator. *)
Definition singleLined (r : SearchResult) : Prop :=
  hasLineTerminator (title r) = false /\
  hasLineTerminator (url r) = false /\
  hasLineTerminator (repository r) = false /\
  hasLineTerminator (type r) = false /\
  hasLineTerminator (state r) = false /\
  hasLineTerminator (author r) = false /\
  hasLineTerminator (created_at r) = false.

(** The lines of a block in the layout of the format, one field per line. *)
Definition linesOf (r : SearchResult) : list str :=
  [js "## " ++ title r;
   js "- URL: " ++ url r;
   js "- Repository: " ++ repository r;
   js "- Type: " ++ type r;
   js "- State: " ++ state r;
   js "- Author: " ++ author r;
   js "- Created at: " ++ created_at r].

Definition blockOf (r : SearchResult) : str := join [LF] (linesOf r).

(** Every field is a plain value, and the last one does not end in white
    space. *)
Definition plainRecord (r : SearchResult) : bool :=
  plainValue (title r) && plainValue (url r) && plainValue (repository r) &&
  plainValue (type r) && plainValue (state r) && plainValue (author r) &&
  plainValue (created_at r) && negb (isSpace (last (created_at r) 32%N)).

(** A line that settles nothing in any state: it is no id-2 result and
    carries no truthy [error]. *)
Definition quietLine (line : str) : bool :=
  negb (carriesResult 2 line) &&
  match errorOf line with
  | Some _ => false
  | None => true
  end.

(** The separator between blocks: a line of three hyphens. *)
Definition dashLine : str := LF :: js "---" ++ [LF].

End MoreProps.
Import MoreProps.

(* ================================================================== *)
(** ** Facts about strings *)
(* ================================================================== *)

Module StringFacts.

Lemma splitFrom_not_nil (sep : str) (s : str) :
  forall skip, splitFrom sep skip s <> [].
Proof.
  induction s as [|c r IH]; intros skip; simpl.
  - discriminate.
  - destruct skip as [|k].
    + destruct (startsWith sep (c :: r)).
      * discriminate.
      * destruct (splitFrom sep 0 r) as [|p ps] eqn:E; simpl; discriminate.
    + apply IH.
Qed.

Lemma split_not_nil (sep s : str) : split sep s <> [].
Proof. apply splitFrom_not_nil. Qed.

Lemma removelast_consHead (c : char) (l : list str) :
  l <> [] ->
  removelast (consHead c l) =
  match removelast l with
  | [] => []
  | _ => consHead c (removelast l)
  end.
Proof.
  destruct l as [|p [|p' ps]]; intros H; [congruence| reflexivity | reflexivity].
Qed.

Lemma last_consHead (c : char) (l : list str) :
  l <> [] ->
  last (consHead c l) [] =
  match removelast l with
  | [] => c :: last l []
  | _ => last l []
  end.
Proof.
  destruct l as [|p [|p' ps]]; intros H; [congruence| reflexivity | reflexivity].
Qed.

(** Splitting on a single code unit commutes with appending more text: the
    complete pieces stay, the last piece is continued. *)
Lemma split1_app (c : char) (x y : str) :
  split [c] (x ++ y) =
  removelast (split [c] x) ++ split [c] (last (split [c] x) [] ++ y).
Proof.
  unfold split.
  induction x as [|a x IH]; simpl.
  - reflexivity.
  - destruct (N.eqb c a) eqn:E; simpl.
    + pose proof (splitFrom_not_nil [c] x 0) as Hne.
      destruct (splitFrom [c] 0 x) as [|p ps] eqn:Ex; [congruence|].
      rewrite IH. reflexivity.
    + pose proof (splitFrom_not_nil [c] x 0) as Hne.
      rewrite IH.
      rewrite removelast_consHead, last_consHead by assumption.
      destruct (splitFrom [c] 0 x) as [|p [|p' ps]] eqn:Ex; [congruence| |].
      * simpl. rewrite E. simpl. reflexivity.
      * cbn [removelast last consHead app]. reflexivity.
Qed.

(** One round of framing keeps the text: the lines given out, then the
    buffer kept, are the pieces of the old buffer continued by the data. *)
Lemma frame_pieces (buffer data : str) :
  fst (frame buffer data) ++ [snd (frame buffer data)] =
  split [LF] (buffer ++ data).
Proof.
  unfold frame; simpl.
  symmetry. apply app_removelast_last. apply split_not_nil.
Qed.

(** A text without line feed is one line. *)
Lemma split_single_line (line : str) :
  existsb (N.eqb LF) line = false -> split [LF] line = [line].
Proof.
  unfold split. induction line as [|c r IH]; intros H.
  - reflexivity.
  - cbn [existsb] in H. apply orb_false_iff in H. destruct H as [Hc Hr].
    cbn [splitFrom startsWith]. rewrite Hc. cbn [andb].
    rewrite (IH Hr). reflexivity.
Qed.

End StringFacts.

(* ================================================================== *)
(** ** Facts about [JSON.parse] and the tests on messages *)
(* ================================================================== *)

Module JsonFacts.

Lemma trimStart_head (s : str) (c : char) (r : str) :
  trimStart s = c :: r -> isSpace c = false.
Proof.
  induction s as [|a s IH]; simpl; [discriminate|].
  destruct (isSpace a) eqn:E; [exact IH|].
  intros H. injection H as <- _. exact E.
Qed.

Lemma trimStart_nil (s : str) :
  trimStart s = [] -> forallb isSpace s = true.
Proof.
  induction s as [|a s IH]; simpl; [reflexivity|].
  destruct (isSpace a); [exact IH|discriminate].
Qed.

(** A blank string holds white space only. *)
Lemma isBlank_spaces (s : str) :
  isBlank s = true -> forallb isSpace s = true.
Proof.
  unfold isBlank, trim, trimEnd. intros H.
  destruct (rev (trimStart (rev (trimStart s)))) as [|x xs] eqn:E;
    [|discriminate].
  apply (f_equal (@rev char)) in E. rewrite rev_involutive in E.
  cbn [rev] in E. apply trimStart_nil in E.
  destruct (trimStart s) as [|c r] eqn:Es.
  - apply trimStart_nil. exact Es.
  - apply trimStart_head in Es.
    rewrite forallb_forall in E.
    rewrite (E c) in Es; [discriminate|].
    apply -> in_rev. left. reflexivity.
Qed.

Lemma skipWs_idem (s : str) : skipWs (skipWs s) = skipWs s.
Proof.
  induction s as [|c r IH]; simpl; [reflexivity|].
  destruct (isJsonWs c) eqn:E; [exact IH|].
  simpl. rewrite E. reflexivity.
Qed.

Lemma skipWs_spaces (s : str) :
  forallb isSpace s = true -> forallb isSpace (skipWs s) = true.
Proof.
  induction s as [|c r IH]; simpl; [reflexivity|].
  intros H. apply andb_prop in H. destruct H as [Hc Hr].
  destruct (isJsonWs c); [apply IH; exact Hr|].
  simpl. rewrite Hc, Hr. reflexivity.
Qed.

Lemma skipWs_head (s : str) (c : char) (r : str) :
  skipWs s = c :: r -> isJsonWs c = false.
Proof.
  induction s as [|a s IH]; simpl; [discriminate|].
  destruct (isJsonWs a) eqn:E; [exact IH|].
  intros H. injection H as <- _. exact E.
Qed.

Lemma readValue_skipWs (fuel : nat) (s : str) :
  readValue fuel (skipWs s) = readValue fuel s.
Proof.
  destruct fuel; [reflexivity|]. cbn [readValue].
  rewrite skipWs_idem. reflexivity.
Qed.

(** No JSON value starts with a white-space character. *)
Lemma readValue_space (fuel : nat) (c : char) (r : str) :
  isSpace c = true -> isJsonWs c = false -> readValue fuel (c :: r) = None.
Proof.
  intros Hsp Hws. destruct fuel; [reflexivity|].
  cbn [readValue skipWs]. rewrite Hws.
  assert (Hne : forall k, isSpace k = false -> N.eqb c k = false).
  { intros k Hk. destruct (N.eqb_spec c k); [subst; congruence|reflexivity]. }
  assert (Hne' : forall k, isSpace k = false -> N.eqb k c = false).
  { intros k Hk. rewrite N.eqb_sym. apply Hne. exact Hk. }
  rewrite (Hne 123%N), (Hne 91%N), (Hne 34%N) by reflexivity.
  assert (Hdigit : digitVal c = None).
  { unfold digitVal.
    destruct (N.leb 48 c && N.leb c 57)%bool eqn:E; [|reflexivity].
    apply andb_prop in E. destruct E as [E1 E2].
    apply N.leb_le in E1, E2. exfalso.
    unfold isSpace in Hsp.
    repeat (apply orb_prop in Hsp; destruct Hsp as [Hsp|Hsp]);
      try (apply andb_prop in Hsp; destruct Hsp as [Ha Hb];
           apply N.leb_le in Ha, Hb; lia);
      apply N.eqb_eq in Hsp; lia. }
  change (startsWith (js "true") (c :: r)) with
    (N.eqb 116 c && startsWith (js "rue") r).
  change (startsWith (js "false") (c :: r)) with
    (N.eqb 102 c && startsWith (js "alse") r).
  change (startsWith (js "null") (c :: r)) with
    (N.eqb 110 c && startsWith (js "ull") r).
  rewrite (Hne' 116%N), (Hne' 102%N), (Hne' 110%N) by reflexivity.
  cbn [andb].
  unfold readNumber.
  rewrite (Hne 45%N), (Hne 48%N) by reflexivity.
  cbn [readDigits]. rewrite Hdigit. reflexivity.
Qed.

(** A line that decodes is not blank: the stdout handler does not skip it. *)
Lemma JSON_parse_not_blank (s : str) (v : JSValue) :
  JSON_parse s = Normal v -> isBlank s = false.
Proof.
  intros H. destruct (isBlank s) eqn:Hb; [|reflexivity]. exfalso.
  apply isBlank_spaces, skipWs_spaces in Hb.
  unfold JSON_parse in H.
  rewrite <- readValue_skipWs in H.
  destruct (skipWs s) as [|c r] eqn:E.
  - destruct (2 * List.length s + 2); discriminate.
  - rewrite readValue_space in H; [discriminate| |].
    + simpl in Hb. apply andb_prop in Hb. tauto.
    + eapply skipWs_head. exact E.
Qed.

(** The Number values of some literals, in the order: 1, 1.00000000000000000001
    and 10e-1 (all three the float 1); 0.1; 9007199254740993 (a tie, rounded
    to the even neighbour); 1e-400 and -0 (zeros); 5e-324, 3e-324 and 2e-324
    (around half of the smallest float); 1.7976931348623157e308 (the largest
    float) and 1e400 (an infinity). *)
Example toDouble_samples :
  toDouble (mkDecimal false 1 0) = numOfZ 1 /\
  toDouble (mkDecimal false 100000000000000000001 (-20)) = numOfZ 1 /\
  toDouble (mkDecimal false 10 (-1)) = numOfZ 1 /\
  toDouble (mkDecimal false 1 (-1))
    = S754_finite false 7205759403792794 (-56) /\
  toDouble (mkDecimal false 9007199254740993 0)
    = S754_finite false 4503599627370496 1 /\
  toDouble (mkDecimal false 1 (-400)) = S754_zero false /\
  toDouble (mkDecimal true 0 0) = S754_zero true /\
  toDouble (mkDecimal false 5 (-324)) = S754_finite false 1 (-1074) /\
  toDouble (mkDecimal false 3 (-324)) = S754_finite false 1 (-1074) /\
  toDouble (mkDecimal false 2 (-324)) = S754_zero false /\
  toDouble (mkDecimal false 17976931348623157 292)
    = S754_finite false 9007199254740991 971 /\
  toDouble (mkDecimal false 1 400) = S754_infinity false.
Proof. vm_compute. repeat split; reflexivity. Qed.

(** What the comparisons and the truth test of the source make of numbers
    that are not written as 1, 2 or 0. *)
Example number_semantics :
  carriesResult 1 (jsq "{'id':1.00000000000000000001,'result':{}}") = true /\
  carriesResult 1 (jsq "{'id':1,'result':1e-400}") = false /\
  carriesResult 2 (jsq "{'id':0.2e1,'result':1e400}") = true /\
  errorOf (jsq "{'id':7,'error':1e-400}") = None /\
  recordsText (jsq "{'id':2,'result':{'content':[{'text':1e-400}]}}")
    = Some [] /\
  recordsText (jsq "{'id':2,'result':{'content':[{'text':1}]}}") = None.
Proof. vm_compute. repeat split; reflexivity. Qed.

(** A number is not both 1 and 2. *)
Lemma strictEqNum_2_not_1 (v : JSValue) :
  strictEqNum v 2 = true -> strictEqNum v 1 = false.
Proof.
  destruct v as [| | |x| | |]; cbn [strictEqNum]; try discriminate.
  unfold numIs.
  change (numOfZ (Z.of_N 2)) with (S754_finite false 4503599627370496 (-51)).
  change (numOfZ (Z.of_N 1)) with (S754_finite false 4503599627370496 (-52)).
  unfold SFeqb, SFcompare.
  destruct x as [sx|sx| |sx m e];
    try discriminate; try (destruct sx; discriminate).
  destruct sx; [discriminate|].
  destruct (Z.compare e (-51)) eqn:E; try discriminate.
  apply Z.compare_eq in E. subst e. reflexivity.
Qed.

Lemma carriesResult_inv (k : N) (line : str) :
  carriesResult k line = true ->
  exists message id result,
    JSON_parse line = Normal message /\
    get message "id" = Normal id /\
    get message "result" = Normal result /\
    strictEqNum id k = true /\ truthy result = true.
Proof.
  unfold carriesResult. intros H.
  destruct (JSON_parse line) as [message|] eqn:Hm; [|discriminate].
  destruct (get message "id") as [id|] eqn:Hid; [|discriminate].
  destruct (get message "result") as [result|] eqn:Hres; [|discriminate].
  apply andb_prop in H. destruct H as [H1 H2].
  exists message, id, result. auto.
Qed.

(** *** The fuel of the readers *)

Lemma skipWs_length (s : str) : List.length (skipWs s) <= List.length s.
Proof.
  induction s as [|c r IH]; simpl; [lia|].
  destruct (isJsonWs c); simpl; lia.
Qed.

Lemma readString_length (s : str) :
  forall acc t r, readString s acc = Some (t, r) ->
                  List.length r < List.length s.
Proof.
  remember (List.length s) as n eqn:Hn.
  assert (Hle : List.length s <= n) by lia. clear Hn.
  revert s Hle. induction n as [|n IH]; intros s Hle acc t r H.
  - destruct s; [discriminate|simpl in Hle; lia].
  - destruct s as [|c s1]; [discriminate|]. cbn [readString] in H.
    cbn [List.length] in *.
    destruct (N.eqb c 34); [injection H as _ <-; lia|].
    destruct (N.eqb c 92).
    + destruct s1 as [|e r1]; [discriminate|]. cbn [List.length] in *.
      destruct (N.eqb e 117).
      * destruct r1 as [|h1 [|h2 [|h3 [|h4 r2]]]]; try discriminate.
        destruct (hexVal h1), (hexVal h2), (hexVal h3), (hexVal h4);
          try discriminate.
        apply IH in H; cbn [List.length] in *; lia.
      * repeat match type of H with
               | (if ?b then _ else _) = _ =>
                   destruct b; [apply IH in H; lia|]
               end.
        discriminate.
    + destruct (N.ltb c 32); [discriminate|]. apply IH in H; lia.
Qed.

Lemma readDigits_length (s : str) :
  forall acc count v count' r,
    readDigits s acc count = (v, count', r) ->
    List.length r <= List.length s /\
    (count < count' -> List.length r < List.length s) /\ count <= count'.
Proof.
  induction s as [|c s IH]; intros acc count v count' r H; simpl in H.
  - injection H as _ <- <-. simpl. lia.
  - destruct (digitVal c).
    + apply IH in H. simpl. lia.
    + injection H as _ <- <-. simpl. lia.
Qed.

Lemma readNumber_length (s : str) (x : Decimal) (r : str) :
  readNumber s = Some (x, r) -> List.length r < List.length s.
Proof.
  unfold readNumber.
  destruct (match s with
            | [] => (false, s)
            | c :: r0 => if N.eqb c 45 then (true, r0) else (false, s)
            end) as [neg s1] eqn:E1.
  assert (H1 : List.length s1 <= List.length s).
  { destruct s as [|c r0]; [injection E1 as _ <-; lia|].
    destruct (N.eqb c 45); injection E1 as _ <-; simpl; lia. }
  destruct s1 as [|c r1]; [discriminate|].
  set (intPart := if N.eqb c 48 then Some (0%N, r1)
                  else match readDigits (c :: r1) 0 0 with
                       | (_, O, _) => None
                       | (n, S _, r') => Some (n, r')
                       end).
  assert (H2 : forall n s2, intPart = Some (n, s2) ->
                            List.length s2 < List.length (c :: r1)).
  { unfold intPart. intros n s2 H.
    destruct (N.eqb c 48); [injection H as _ <-; simpl; lia|].
    destruct (readDigits (c :: r1) 0 0) as [[v k] r'] eqn:Ed.
    destruct k; [discriminate|]. injection H as _ <-.
    apply readDigits_length in Ed. lia. }
  destruct intPart as [[n s2]|]; [|discriminate].
  specialize (H2 n s2 eq_refl).
  set (frac := match s2 with
               | [] => Some (n, 0%Z, s2)
               | c0 :: r0 =>
                   if N.eqb c0 46
                   then match readDigits r0 n 0 with
                        | (_, O, _) => None
                        | (m, S k, r') => Some (m, (- Z.of_nat (S k))%Z, r')
                        end
                   else Some (n, 0%Z, s2)
               end).
  assert (H3 : forall m e s3, frac = Some (m, e, s3) ->
                              List.length s3 <= List.length s2).
  { unfold frac. intros m e s3 H.
    destruct s2 as [|c0 r0]; [injection H as _ _ <-; lia|].
    destruct (N.eqb c0 46); [|injection H as _ _ <-; lia].
    destruct (readDigits r0 n 0) as [[v k] r'] eqn:Ed.
    destruct k; [discriminate|]. injection H as _ _ <-.
    apply readDigits_length in Ed. simpl. lia. }
  destruct frac as [[[m e] s3]|]; [|discriminate].
  specialize (H3 m e s3 eq_refl).
  intros H.
  destruct s3 as [|c3 r3]; [injection H as _ <-; simpl in *; lia|].
  destruct (N.eqb c3 101 || N.eqb c3 69)%bool;
    [|injection H as _ <-; simpl in *; lia].
  destruct (match r3 with
            | [] => (false, r3)
            | sg :: r' =>
                if N.eqb sg 45 then (true, r')
                else if N.eqb sg 43 then (false, r') else (false, r3)
            end) as [eneg r4] eqn:E4.
  assert (H4 : List.length r4 <= List.length r3).
  { destruct r3 as [|sg r']; [injection E4 as _ <-; lia|].
    destruct (N.eqb sg 45); [injection E4 as _ <-; simpl; lia|].
    destruct (N.eqb sg 43); injection E4 as _ <-; simpl; lia. }
  destruct (readDigits r4 0 0) as [[v k] r5] eqn:Ed.
  destruct k; [discriminate|]. injection H as _ <-.
  apply readDigits_length in Ed. simpl in *. lia.
Qed.

Lemma enough_fuel : forall f, Enough f.
Proof.
  induction f as [|f (IHv & IHe & IHm)].
  - repeat split; discriminate.
  - split; [|split].
    + (* readValue *)
      intros s v r.
      enough (K : readValue (S f) s = Some (v, r) ->
                  List.length r < List.length s /\
                  forall g, 2 * (List.length s - List.length r) <= g + 2 ->
                            readValue (S g) s = Some (v, r)).
      { intros H. destruct (K H) as [Hl Hg]. split; [exact Hl|].
        intros g Hb. destruct g as [|g]; [lia|]. apply Hg. lia. }
      cbn [readValue].
      pose proof (skipWs_length s) as Hs.
      destruct (skipWs s) as [|c rest]; [discriminate|].
      cbn [List.length] in Hs.
      destruct (N.eqb c 123).
      { pose proof (skipWs_length rest) as Hs1.
        destruct (skipWs rest) as [|c1 r1]; [discriminate|].
        cbn [List.length] in Hs1.
        destruct (N.eqb c1 125).
        - intros H. injection H as <- <-. split; [lia|reflexivity].
        - intros H. destruct (IHm _ _ _ _ H) as [Hl Hg].
          split; [lia|]. intros g Hb. apply Hg. lia. }
      destruct (N.eqb c 91).
      { pose proof (skipWs_length rest) as Hs1.
        destruct (skipWs rest) as [|c1 r1]; [discriminate|].
        cbn [List.length] in Hs1.
        destruct (N.eqb c1 93).
        - intros H. injection H as <- <-. split; [lia|reflexivity].
        - intros H. destruct (IHe _ _ _ _ H) as [Hl Hg].
          split; [lia|]. intros g Hb. apply Hg. lia. }
      destruct (N.eqb c 34).
      { destruct (readString rest []) as [[t r1]|] eqn:Et; [|discriminate].
        apply readString_length in Et.
        intros H. injection H as <- <-. split; [lia|reflexivity]. }
      destruct (startsWith (js "true") (c :: rest)).
      { intros H.
        match type of H with
        | Some (?a, ?b) = _ =>
            assert (Hv : v = a) by congruence;
            assert (Hr : r = b) by congruence
        end.
        rewrite Hv, Hr, length_skipn. cbn [List.length].
        split; [lia|reflexivity]. }
      destruct (startsWith (js "false") (c :: rest)).
      { intros H.
        match type of H with
        | Some (?a, ?b) = _ =>
            assert (Hv : v = a) by congruence;
            assert (Hr : r = b) by congruence
        end.
        rewrite Hv, Hr, length_skipn. cbn [List.length].
        split; [lia|reflexivity]. }
      destruct (startsWith (js "null") (c :: rest)).
      { intros H.
        match type of H with
        | Some (?a, ?b) = _ =>
            assert (Hv : v = a) by congruence;
            assert (Hr : r = b) by congruence
        end.
        rewrite Hv, Hr, length_skipn. cbn [List.length].
        split; [lia|reflexivity]. }
      destruct (readNumber (c :: rest)) as [[x r1]|] eqn:En; [|discriminate].
      apply readNumber_length in En. cbn [List.length] in En.
      intros H. injection H as <- <-. split; [lia|reflexivity].
    + (* readElements *)
      intros s acc v r H. cbn [readElements] in H.
      destruct (readValue f s) as [[v1 r1]|] eqn:Ev; [|discriminate].
      destruct (IHv _ _ _ Ev) as [Hl1 Hg1].
      pose proof (skipWs_length r1) as Hs1.
      destruct (skipWs r1) as [|c r2] eqn:Es; [discriminate|].
      cbn [List.length] in Hs1.
      destruct (N.eqb c 44) eqn:Ec.
      * destruct (IHe _ _ _ _ H) as [Hl2 Hg2]. split; [lia|].
        intros g Hb. destruct g as [|g]; [lia|]. cbn [readElements].
        rewrite (Hg1 g) by lia. rewrite Es, Ec. apply Hg2. lia.
      * destruct (N.eqb c 93) eqn:Ec'; [|discriminate].
        injection H as <- <-. split; [lia|].
        intros g Hb. destruct g as [|g]; [lia|]. cbn [readElements].
        rewrite (Hg1 g) by lia. rewrite Es, Ec, Ec'. reflexivity.
    + (* readMembers *)
      intros s acc v r H. cbn [readMembers] in H.
      pose proof (skipWs_length s) as Hs.
      destruct (skipWs s) as [|q rest] eqn:Es; [discriminate|].
      cbn [List.length] in Hs.
      destruct (N.eqb q 34) eqn:Eq; [|discriminate].
      destruct (readString rest []) as [[k r1]|] eqn:Ek; [|discriminate].
      pose proof Ek as Hk. apply readString_length in Hk.
      pose proof (skipWs_length r1) as Hs1.
      destruct (skipWs r1) as [|c r2] eqn:Es1; [discriminate|].
      cbn [List.length] in Hs1.
      destruct (N.eqb c 58) eqn:Ec; [|discriminate].
      destruct (readValue f r2) as [[v1 r3]|] eqn:Ev; [|discriminate].
      destruct (IHv _ _ _ Ev) as [Hl1 Hg1].
      pose proof (skipWs_length r3) as Hs3.
      destruct (skipWs r3) as [|d r4] eqn:Es3; [discriminate|].
      cbn [List.length] in Hs3.
      destruct (N.eqb d 44) eqn:Ed.
      * destruct (IHm _ _ _ _ H) as [Hl2 Hg2]. split; [lia|].
        intros g Hb. destruct g as [|g]; [lia|]. cbn [readMembers].
        rewrite Es, Eq, Ek, Es1, Ec. rewrite (Hg1 g) by lia.
        rewrite Es3, Ed. apply Hg2. lia.
      * destruct (N.eqb d 125) eqn:Ed'; [|discriminate].
        injection H as <- <-. split; [lia|].
        intros g Hb. destruct g as [|g]; [lia|]. cbn [readMembers].
        rewrite Es, Eq, Ek, Es1, Ec. rewrite (Hg1 g) by lia.
        rewrite Es3, Ed, Ed'. reflexivity.
Qed.

(** More fuel than [JSON_parse] gives changes nothing. *)
Theorem readValue_fuel (text : str) (fuel : nat) :
  2 * List.length text + 2 <= fuel ->
  readValue fuel text = readValue (2 * List.length text + 2) text.
Proof.
  intros Hf.
  destruct (readValue fuel text) as [[v r]|] eqn:E.
  - destruct (enough_fuel fuel) as (Hv & _ & _).
    destruct (Hv _ _ _ E) as [Hl Hg]. symmetry. apply Hg. lia.
  - destruct (readValue (2 * List.length text + 2) text) as [[v r]|] eqn:E';
      [|reflexivity].
    destruct (enough_fuel (2 * List.length text + 2)) as (Hv & _ & _).
    destruct (Hv _ _ _ E') as [Hl Hg].
    rewrite (Hg fuel) in E by lia. discriminate.
Qed.

End JsonFacts.

(* ================================================================== *)
(** ** Facts about the handlers *)
(* ================================================================== *)

Module SessionFacts.
Import StringFacts.

(** The inner [catch] of the stdout and close handlers is never entered:
    every throw inside [parseMCPResponse] is caught by its own loop. *)
Lemma parseResponseLines_normal (lines : list str) :
  exists rs, parseResponseLines lines = Normal rs.
Proof.
  induction lines as [|line rest IH]; simpl.
  - eexists; reflexivity.
  - destruct (tryResponseLine line) as [[rs|]|e]; eauto.
Qed.

Lemma parseMCPResponse_normal (data : str) :
  exists rs, parseMCPResponse data = Normal rs.
Proof. apply parseResponseLines_normal. Qed.

Lemma handleLine_step (query line : str) (s : Session) :
  LineStep query line s (handleLine query line s).
Proof.
  unfold handleLine.
  destruct (isBlank line) eqn:Hblank; [constructor|].
  unfold tryMessageLine.
  destruct (JSON_parse line) as [message|e] eqn:Hparse; cbn [bind];
    [|constructor].
  destruct (get message "id") as [id|e] eqn:Hid; cbn [bind]; [|constructor].
  assert (Hres : exists result, get message "result" = Normal result).
  { destruct message; simpl in Hid |- *; try discriminate; eauto. }
  destruct Hres as [result Hres]. rewrite Hres in *. cbn [bind].
  assert (Hc1 : forall k,
             carriesResult k line = strictEqNum id k && truthy result)
    by (intros k; unfold carriesResult; rewrite Hparse, Hid, Hres;
        reflexivity).
  assert (Herr : exists error, get message "error" = Normal error).
  { destruct message; simpl in Hid |- *; try discriminate; eauto. }
  destruct Herr as [error Herr]. rewrite Herr. cbn [bind].
  destruct (strictEqNum id 1) eqn:H1; cbn [bind].
  - destruct (truthy result) eqn:Ht; cbn [andb negb].
    + destruct (isInitialized s) eqn:Hi; cbn [negb].
      * (* already initialized: the later tests are made *)
        destruct (strictEqNum id 2) eqn:H2; cbn [bind].
        -- destruct (parseMCPResponse_normal line) as [rs Hrs]. rewrite Hrs.
           apply ls_response; [rewrite Hc1; rewrite ?H2, ?Ht; reflexivity | assumption].
        -- destruct (truthy error) eqn:He; [|constructor].
           destruct (get error "message") as [m|e'] eqn:Hm; cbn [bind];
             constructor.
      * apply ls_handshake; try assumption.
        rewrite Hc1; rewrite ?H1, ?Ht; reflexivity.
    + destruct (strictEqNum id 2) eqn:H2; cbn [bind].
      * destruct (truthy error) eqn:He; [|constructor].
        destruct (get error "message") as [m|e'] eqn:Hm; cbn [bind];
          constructor.
      * destruct (truthy error) eqn:He; [|constructor].
        destruct (get error "message") as [m|e'] eqn:Hm; cbn [bind];
          constructor.
  - destruct (strictEqNum id 2) eqn:H2; cbn [bind].
    + destruct (truthy result) eqn:Ht.
      * destruct (parseMCPResponse_normal line) as [rs Hrs]. rewrite Hrs.
        apply ls_response; [rewrite Hc1; rewrite ?H2, ?Ht; reflexivity | assumption].
      * destruct (truthy error) eqn:He; [|constructor].
        destruct (get error "message") as [m|e'] eqn:Hm; cbn [bind];
          constructor.
    + destruct (truthy error) eqn:He; [|constructor].
      destruct (get error "message") as [m|e'] eqn:Hm; cbn [bind];
        constructor.
Qed.

(** *** What the handlers leave alone *)

Lemma handleLine_buffers (query line : str) (s : Session) :
  buffers (fst (handleLine query line s)) = buffers s.
Proof.
  pose proof (handleLine_step query line s) as H.
  remember (handleLine query line s) as out.
  destruct H; reflexivity.
Qed.

Lemma handleLines_buffers (query : str) (lines : list str) :
  forall s, buffers (handleLines query lines s) = buffers s.
Proof.
  induction lines as [|line rest IH]; intros s; simpl.
  - reflexivity.
  - pose proof (handleLine_buffers query line s) as H.
    destruct (handleLine query line s) as [s' [|]]; simpl in H.
    + rewrite IH. exact H.
    + exact H.
Qed.

Lemma onStdoutData_buffers (query data : str) (s : Session) :
  buffers (onStdoutData query data s) =
  (snd (frame (responseData s) data),
   framedLines s ++ fst (frame (responseData s) data)).
Proof.
  unfold onStdoutData.
  destruct (frame (responseData s) data) as [lines buffer].
  rewrite handleLines_buffers. reflexivity.
Qed.

Lemma step_buffers (host : Host) (query : str) (s : Session) (e : Event) :
  buffers (step host query s e) =
  match e with
  | StdoutData data =>
      (snd (frame (responseData s) data),
       framedLines s ++ fst (frame (responseData s) data))
  | _ => buffers s
  end.
Proof.
  destruct e as [data|data|code msg|code|]; simpl.
  - apply onStdoutData_buffers.
  - reflexivity.
  - unfold onError. destruct code as [c|]; [destruct (eqb_str c _)|];
      reflexivity.
  - unfold onClose. cbn [hasReceivedResponse clearTimeout].
    destruct (hasReceivedResponse s); cbn [negb]; [reflexivity|].
    destruct code as [[| |]|];
      try reflexivity.
    destruct (parseMCPResponse _); reflexivity.
  - destruct (responseTimeout s); [|reflexivity].
    unfold onTimeout. cbn [hasReceivedResponse timerGone].
    destruct (hasReceivedResponse s); reflexivity.
Qed.

(** The framing invariant: the lines framed so far, then the buffer, are the
    pieces of all the text received so far. *)
Lemma runFrom_framing (host : Host) (query : str) (events : list Event) :
  forall (s : Session) (text : str),
    framedLines s ++ [responseData s] = split [LF] text ->
    framedLines (runFrom host query s events)
      ++ [responseData (runFrom host query s events)]
    = split [LF] (text ++ stdoutText events).
Proof.
  induction events as [|e rest IH]; intros s text Hs; simpl.
  - rewrite app_nil_r. exact Hs.
  - rewrite app_assoc. apply IH.
    pose proof (f_equal fst (step_buffers host query s e)) as Hdata.
    pose proof (f_equal snd (step_buffers host query s e)) as Hlines.
    unfold buffers in Hdata, Hlines. cbn [fst snd] in Hdata, Hlines.
    rewrite Hdata, Hlines.
    destruct e as [data|data|code msg|code|]; cbn [fst snd flat_map];
      try (rewrite app_nil_r; exact Hs).
    rewrite <- app_assoc, frame_pieces.
    rewrite ?app_nil_r. rewrite (split1_app LF text data), <- Hs.
    rewrite removelast_last, last_last. reflexivity.
Qed.

Lemma run_framing (host : Host) (query : str) (events : list Event) :
  framedLines (run host query events) ++ [responseData (run host query events)]
  = split [LF] (stdoutText events).
Proof.
  apply (runFrom_framing host query events start []). reflexivity.
Qed.

Lemma run_framedLines (host : Host) (query : str) (events : list Event) :
  framedLines (run host query events) =
  removelast (split [LF] (stdoutText events)).
Proof.
  rewrite <- (run_framing host query). rewrite removelast_last. reflexivity.
Qed.

(** *** Reading the effect log *)

Lemma firstSettle_app (l l' : list Effect) :
  firstSettle (l ++ l') =
  match firstSettle l with
  | Some o => Some o
  | None => firstSettle l'
  end.
Proof.
  induction l as [|e l IH]; simpl; [reflexivity|].
  destruct e; auto.
Qed.

Ltac log_simpl :=
  unfold writes, kills, settles, outcome, emit, clearTimeout,
    setHasReceivedResponse, setIsInitialized, timerGone, appendErrorData,
    setResponseData in *;
  cbn [effects isInitialized hasReceivedResponse responseTimeout
       responseData errorData framedLines] in *;
  rewrite ?flat_map_app, ?filter_app, ?length_app, ?firstSettle_app in *;
  cbn [flat_map filter isKill isSettle firstSettle List.length app] in *.

(** A property kept by every iteration is kept by the loop. *)
Lemma handleLines_invariant (query : str) (P : Session -> Prop)
  (lines : list str) :
  (forall line s out,
      In line lines -> P s -> LineStep query line s out -> P (fst out)) ->
  forall s, P s -> P (handleLines query lines s).
Proof.
  induction lines as [|line rest IH]; intros Hstep s Hs; simpl.
  - exact Hs.
  - pose proof (Hstep line s _ (or_introl eq_refl) Hs
                  (handleLine_step query line s)) as H.
    destruct (handleLine query line s) as [s' [|]]; simpl in H.
    + apply IH; [|exact H].
      intros l t out Hin. apply Hstep. right. exact Hin.
    + exact H.
Qed.

(** *** The handshake invariant *)

Lemma lineStep_handshake (query line : str) (s : Session) out :
  Handshake query s -> LineStep query line s out -> Handshake query (fst out).
Proof.
  intros Hs Hl. destruct Hl as [|Hc Hb Hi|rs Hc Hp|e]; cbn [fst].
  - exact Hs.
  - right. destruct Hs as [[_ Hw]|[Hi' _]]; [|congruence].
    log_simpl. rewrite Hw. split; reflexivity.
  - destruct Hs as [[Hi Hw]|[Hi Hw]]; [left|right]; log_simpl;
      rewrite ?app_nil_r; split; assumption.
  - destruct Hs as [[Hi Hw]|[Hi Hw]]; [left|right]; log_simpl;
      rewrite ?app_nil_r; split; assumption.
Qed.

Lemma step_handshake (host : Host) (query : str) (s : Session) (e : Event) :
  Handshake query s -> Handshake query (step host query s e).
Proof.
  intros Hs. destruct e as [data|data|code msg|code|]; cbn [step].
  - unfold onStdoutData.
    destruct (frame (responseData s) data) as [lines buffer].
    apply handleLines_invariant.
    + intros line t out _. apply lineStep_handshake.
    + exact Hs.
  - exact Hs.
  - unfold onError.
    destruct code as [c|]; [destruct (eqb_str c _)|];
      (destruct Hs as [[Hi Hw]|[Hi Hw]]; [left|right]; log_simpl;
       rewrite ?app_nil_r; split; assumption).
  - unfold onClose. cbn [hasReceivedResponse clearTimeout].
    destruct (hasReceivedResponse s); cbn [negb];
      [|destruct (match code with Some 0%Z => false | _ => true end);
        [|destruct (parseMCPResponse _)]];
      (destruct Hs as [[Hi Hw]|[Hi Hw]]; [left|right]; log_simpl;
       rewrite ?app_nil_r; split; assumption).
  - destruct (responseTimeout s); [|exact Hs].
    unfold onTimeout. cbn [hasReceivedResponse timerGone].
    destruct (hasReceivedResponse s); cbn [negb];
      (destruct Hs as [[Hi Hw]|[Hi Hw]]; [left|right]; log_simpl;
       rewrite ?app_nil_r; split; assumption).
Qed.

Lemma run_handshake (host : Host) (query : str) (events : list Event) :
  Handshake query (run host query events).
Proof.
  unfold run, runFrom.
  assert (H : Handshake query start) by (left; split; reflexivity).
  revert H. generalize start.
  induction events as [|e rest IH]; intros s Hs; simpl.
  - exact Hs.
  - apply IH. apply step_handshake. exact Hs.
Qed.

(** *** The initialize result has been seen before the flag is set *)




(** *** The log only grows *)

Lemma grows_refl (s : Session) : Grows s s.
Proof. exists []. rewrite app_nil_r. reflexivity. Qed.

Lemma grows_trans (a b c : Session) : Grows a b -> Grows b c -> Grows a c.
Proof.
  intros [m Hm] [n Hn]. exists (m ++ n). rewrite Hn, Hm, app_assoc.
  reflexivity.
Qed.

Lemma grows_by (s s' : Session) (more : list Effect) :
  effects s' = effects s ++ more -> Grows s s'.
Proof. intros H. exists more. exact H. Qed.

Lemma grows_same (s s' : Session) : effects s' = effects s -> Grows s s'.
Proof. intros H. exists []. rewrite app_nil_r. exact H. Qed.

Lemma lineStep_grows (query line : str) (s : Session) out :
  LineStep query line s out -> Grows s (fst out).
Proof.
  intros Hl. destruct Hl as [|Hc Hb Hi|rs Hc Hp|e]; cbn [fst].
  - apply grows_refl.
  - eapply grows_by. log_simpl. rewrite <- app_assoc. reflexivity.
  - eapply grows_by. log_simpl. rewrite <- !app_assoc. reflexivity.
  - eapply grows_by. log_simpl. rewrite <- !app_assoc. reflexivity.
Qed.

Lemma step_grows (host : Host) (query : str) (s : Session) (e : Event) :
  Grows s (step host query s e).
Proof.
  destruct e as [data|data|code msg|code|]; cbn [step].
  - unfold onStdoutData.
    destruct (frame (responseData s) data) as [lines buffer].
    apply handleLines_invariant with (P := fun t => Grows s t).
    + intros line t out _ Ht Hl.
      eapply grows_trans; [exact Ht|]. eapply lineStep_grows. exact Hl.
    + apply grows_same. reflexivity.
  - apply grows_same. reflexivity.
  - unfold onError.
    destruct code as [c|]; [destruct (eqb_str c _)|];
      (eapply grows_by; log_simpl; rewrite <- ?app_assoc; reflexivity).
  - unfold onClose. cbn [hasReceivedResponse clearTimeout].
    destruct (hasReceivedResponse s); cbn [negb];
      [|destruct (match code with Some 0%Z => false | _ => true end);
        [|destruct (parseMCPResponse _)]];
      (eapply grows_by; log_simpl; rewrite <- ?app_assoc; reflexivity).
  - destruct (responseTimeout s); [|apply grows_refl].
    unfold onTimeout. cbn [hasReceivedResponse timerGone].
    destruct (hasReceivedResponse s); cbn [negb];
      [apply grows_same; reflexivity|].
    eapply grows_by; log_simpl; rewrite <- ?app_assoc; reflexivity.
Qed.

Lemma runFrom_grows (host : Host) (query : str) (events : list Event) :
  forall s, Grows s (runFrom host query s events).
Proof.
  induction events as [|e rest IH]; intros s; simpl.
  - apply grows_refl.
  - eapply grows_trans; [apply step_grows|apply IH].
Qed.

(** A settled promise keeps its state. *)
Lemma outcome_kept (s s' : Session) (o : Outcome) :
  Grows s s' -> outcome s = Some o -> outcome s' = Some o.
Proof.
  intros [more Hm] Ho. unfold outcome in *.
  rewrite Hm, firstSettle_app, Ho. reflexivity.
Qed.

(** *** An unsettled session still has its timer and has not killed *)

Ltac settled_now :=
  let H := fresh in
  intros H; log_simpl;
  repeat match type of H with
         | context [match ?x with _ => _ end] => destruct x
         end;
  discriminate H.

Lemma lineStep_pending (query line : str) (s : Session) out :
  Pending s -> LineStep query line s out -> Pending (fst out).
Proof.
  intros Hs Hl. destruct Hl as [|Hc Hb Hi|rs Hc Hp|e]; cbn [fst].
  - exact Hs.
  - intros Ho. log_simpl.
    destruct (firstSettle (effects s)) eqn:E; [discriminate|].
    destruct (Hs E) as (Ht & Hk & Hr). log_simpl.
    rewrite Hk. repeat split; assumption.
  - settled_now.
  - settled_now.
Qed.

Lemma step_pending (host : Host) (query : str) (s : Session) (e : Event) :
  Pending s -> Pending (step host query s e).
Proof.
  intros Hs. destruct e as [data|data|code msg|code|]; cbn [step].
  - unfold onStdoutData.
    destruct (frame (responseData s) data) as [lines buffer].
    apply handleLines_invariant.
    + intros line t out _. apply lineStep_pending.
    + exact Hs.
  - exact Hs.
  - unfold onError.
    destruct code as [c|]; [destruct (eqb_str c _)|]; settled_now.
  - unfold onClose. cbn [hasReceivedResponse clearTimeout].
    destruct (hasReceivedResponse s) eqn:Hr; cbn [negb].
    + intros Ho. log_simpl.
      destruct (firstSettle (effects s)) eqn:E; [discriminate|].
      destruct (Hs E) as (_ & _ & Hr'). log_simpl. congruence.
    + destruct (match code with Some 0%Z => false | _ => true end);
        [|destruct (parseMCPResponse _)]; settled_now.
  - destruct (responseTimeout s); [|exact Hs].
    unfold onTimeout. cbn [hasReceivedResponse timerGone].
    destruct (hasReceivedResponse s) eqn:Hr; cbn [negb].
    + intros Ho. log_simpl.
      destruct (Hs Ho) as (_ & _ & Hr'). log_simpl. congruence.
    + settled_now.
Qed.

Lemma run_pending (host : Host) (query : str) (events : list Event) :
  Pending (run host query events).
Proof.
  unfold run, runFrom.
  assert (H : Pending start) by (intros _; repeat split; reflexivity).
  revert H. generalize start.
  induction events as [|e rest IH]; intros s Hs; simpl.
  - exact Hs.
  - apply IH. apply step_pending. exact Hs.
Qed.

(** *** A settled session has no pending timer *)

Ltac timer_cleared := intros _; reflexivity.

Lemma lineStep_cleared (query line : str) (s : Session) out :
  Cleared s -> LineStep query line s out -> Cleared (fst out).
Proof.
  intros Hs Hl. destruct Hl as [|Hc Hb Hi|rs Hc Hp|e]; cbn [fst].
  - exact Hs.
  - intros Ho. log_simpl. apply Hs. unfold outcome.
    destruct (firstSettle (effects s)); [discriminate|congruence].
  - timer_cleared.
  - timer_cleared.
Qed.

Lemma step_cleared (host : Host) (query : str) (s : Session) (e : Event) :
  Cleared s -> Cleared (step host query s e).
Proof.
  intros Hs. destruct e as [data|data|code msg|code|]; cbn [step].
  - unfold onStdoutData.
    destruct (frame (responseData s) data) as [lines buffer].
    apply handleLines_invariant.
    + intros line t out _. apply lineStep_cleared.
    + exact Hs.
  - exact Hs.
  - unfold onError.
    destruct code as [c|]; [destruct (eqb_str c _)|]; timer_cleared.
  - unfold onClose. cbn [hasReceivedResponse clearTimeout].
    destruct (hasReceivedResponse s); cbn [negb];
      [|destruct (match code with Some 0%Z => false | _ => true end);
        [|destruct (parseMCPResponse _)]]; timer_cleared.
  - destruct (responseTimeout s); [|exact Hs].
    unfold onTimeout. cbn [hasReceivedResponse timerGone].
    destruct (hasReceivedResponse s); timer_cleared.
Qed.

Lemma run_cleared (host : Host) (query : str) (events : list Event) :
  Cleared (run host query events).
Proof.
  unfold run, runFrom.
  assert (H : Cleared start) by (intros H; exfalso; apply H; reflexivity).
  revert H. generalize start.
  induction events as [|e rest IH]; intros s Hs; simpl.
  - exact Hs.
  - apply IH. apply step_cleared. exact Hs.
Qed.

(** With no timer pending, exit notifications and timer firings kill
    nothing. *)
Lemma exits_and_timers_kill_nothing (host : Host) (query : str)
  (later : list Event) :
  forall s,
    responseTimeout s = None ->
    forallb isExitOrTimer later = true ->
    kills (runFrom host query s later) = kills s.
Proof.
  induction later as [|e rest IH]; intros s Ht Hev; [reflexivity|].
  cbn [forallb] in Hev. apply andb_prop in Hev. destruct Hev as [He Hrest].
  change (runFrom host query s (e :: rest))
    with (runFrom host query (step host query s e) rest).
  assert (Hstep : responseTimeout (step host query s e) = None /\
                  kills (step host query s e) = kills s).
  { destruct e as [data|data|code msg|code|]; try discriminate He;
      cbn [step].
    - unfold onClose. cbn [hasReceivedResponse clearTimeout].
      destruct (hasReceivedResponse s); cbn [negb];
        [|destruct (match code with Some 0%Z => false | _ => true end);
          [|destruct (parseMCPResponse _)]];
        (split; [reflexivity|log_simpl; lia]).
    - rewrite Ht. split; [exact Ht|reflexivity]. }
  destruct Hstep as [Ht' Hk]. rewrite (IH _ Ht' Hrest). exact Hk.
Qed.

(** Once a response has been received, exit notifications and timer firings
    settle nothing. *)
Lemma exits_and_timers_settle_nothing (host : Host) (query : str)
  (later : list Event) :
  forall s,
    hasReceivedResponse s = true ->
    forallb isExitOrTimer later = true ->
    settles (runFrom host query s later) = settles s.
Proof.
  induction later as [|e rest IH]; intros s Hr Hev; [reflexivity|].
  cbn [forallb] in Hev. apply andb_prop in Hev. destruct Hev as [He Hrest].
  change (runFrom host query s (e :: rest))
    with (runFrom host query (step host query s e) rest).
  assert (Hstep : hasReceivedResponse (step host query s e) = true /\
                  settles (step host query s e) = settles s).
  { destruct e as [data|data|code msg|code|]; try discriminate He;
      cbn [step].
    - unfold onClose. cbn [hasReceivedResponse clearTimeout].
      rewrite Hr. cbn [negb]. split; [exact Hr|log_simpl; lia].
    - destruct (responseTimeout s); [|split; [exact Hr|reflexivity]].
      unfold onTimeout. cbn [hasReceivedResponse timerGone].
      rewrite Hr. cbn [negb]. split; [exact Hr|reflexivity]. }
  destruct Hstep as [Hr' Hs]. rewrite (IH _ Hr' Hrest). exact Hs.
Qed.

End SessionFacts.

(* ================================================================== *)
(** ** Facts about the content parser *)
(* ================================================================== *)

Module ParserFacts.
Import Regex StringFacts.

(** A capturing group [(x+)] never captures the empty string. *)
Lemma exec_groups_not_empty (p : pattern) :
  forall s caps, exec p s = Some caps -> Forall (fun g => g <> []) caps.
Proof.
  induction p as [|it p' IH]; intros s caps H.
  - simpl in H. destruct s; [|discriminate].
    injection H as <-. constructor.
  - destruct it as [k|k|k]; simpl in H.
    + destruct s as [|c r]; [discriminate|].
      destruct (accepts k c); [|discriminate]. eapply IH; eassumption.
    + revert caps H. induction s as [|c r IHs]; intros caps H.
      * eapply IH; eassumption.
      * destruct (accepts k c).
        -- match type of H with
           | match ?x with _ => _ end = _ => destruct x as [caps'|] eqn:E
           end.
           ++ injection H as <-. apply IHs. reflexivity.
           ++ eapply IH; eassumption.
        -- eapply IH; eassumption.
    + match type of H with
      | ?f [] s = _ =>
          assert (G : forall r taken caps',
                     f taken r = Some caps' ->
                     Forall (fun g => g <> []) caps')
      end.
      { clear s caps H.
        induction r as [|c r IHs]; intros taken caps H; [discriminate|].
        destruct (accepts k c); [|discriminate].
        match type of H with
        | match ?x with _ => _ end = _ => destruct x as [caps'|] eqn:E
        end.
        - injection H as <-. eapply IHs. exact E.
        - destruct (exec p' r) as [caps'|] eqn:E'; [|discriminate].
          injection H as <-. constructor.
          + destruct taken; discriminate.
          + eapply IH; eassumption. }
      eapply G. exact H.
Qed.

Lemma group1_not_empty (p : pattern) (s g : str) :
  group1 p s = Some g -> g <> [].
Proof.
  unfold group1. intros H.
  destruct (exec p s) as [[|g' caps]|] eqn:E; try discriminate.
  injection H as <-.
  pose proof (exec_groups_not_empty p s E) as F.
  inversion F; assumption.
Qed.

(** [collect] is the records of the blocks, block after block. *)
Lemma fold_pushSection (sections : list str) :
  forall results,
    fold_left pushSection sections results =
    results ++ flat_map accepted sections.
Proof.
  induction sections as [|b rest IH]; intros results; simpl.
  - rewrite app_nil_r. reflexivity.
  - rewrite IH. unfold pushSection, accepted.
    destruct (parseSection b); [rewrite <- app_assoc|]; reflexivity.
Qed.

Lemma collect_flat_map (sections : list str) :
  collect sections = flat_map accepted sections.
Proof. unfold collect. rewrite fold_pushSection. reflexivity. Qed.

Lemma parseSearchResults_eq (content : str) :
  parseSearchResults content =
  firstn 20 (flat_map accepted (sectionsOf content)).
Proof. unfold parseSearchResults. rewrite collect_flat_map. reflexivity. Qed.

(** *** Each variable of the field loop ends as its last match *)

Lemma lastMatch_from (label : string) (lines : list str) :
  forall found,
    fold_left
      (fun found line =>
         match group1 (fieldRe label) line with
         | Some v => Some v
         | None => found
         end) lines found =
    match lastMatch label lines with
    | Some v => Some v
    | None => found
    end.
Proof.
  unfold lastMatch.
  induction lines as [|l rest IH]; intros found; simpl.
  - reflexivity.
  - rewrite IH. rewrite (IH (match group1 (fieldRe label) l with
                             | Some v => Some v | None => None end)).
    destruct (fold_left _ rest None); [reflexivity|].
    destruct (group1 (fieldRe label) l); reflexivity.
Qed.

Lemma lastMatch_cons (label : string) (l : str) (rest : list str) :
  lastMatch label (l :: rest) =
  match lastMatch label rest with
  | Some v => Some v
  | None => group1 (fieldRe label) l
  end.
Proof.
  unfold lastMatch at 1. cbn [fold_left]. rewrite lastMatch_from.
  destruct (lastMatch label rest); [reflexivity|].
  destruct (group1 (fieldRe label) l); reflexivity.
Qed.

Lemma pick_cons (label : string) (l : str) (rest : list str) (d : str) :
  pick label (l :: rest) d =
  pick label rest (orDefault d (group1 (fieldRe label) l)).
Proof.
  unfold pick. rewrite lastMatch_cons.
  destruct (lastMatch label rest); [reflexivity|].
  destruct (group1 (fieldRe label) l); reflexivity.
Qed.

Lemma scanLine_fields (r : SearchResult) (line : str) :
  title (scanLine r line) = title r /\
  url (scanLine r line) = orDefault (url r) (group1 (fieldRe "URL") line) /\
  repository (scanLine r line) =
    orDefault (repository r) (group1 (fieldRe "Repository") line) /\
  type (scanLine r line) =
    orDefault (type r) (group1 (fieldRe "Type") line) /\
  state (scanLine r line) =
    orDefault (state r) (group1 (fieldRe "State") line) /\
  author (scanLine r line) =
    orDefault (author r) (group1 (fieldRe "Author") line) /\
  created_at (scanLine r line) =
    orDefault (created_at r) (group1 (fieldRe "Created at") line).
Proof.
  unfold scanLine.
  destruct (group1 (fieldRe "URL") line),
           (group1 (fieldRe "Repository") line),
           (group1 (fieldRe "Type") line),
           (group1 (fieldRe "State") line),
           (group1 (fieldRe "Author") line),
           (group1 (fieldRe "Created at") line);
    repeat split; reflexivity.
Qed.

Lemma scan_fields (lines : list str) :
  forall r,
    let r' := fold_left scanLine lines r in
    title r' = title r /\
    url r' = pick "URL" lines (url r) /\
    repository r' = pick "Repository" lines (repository r) /\
    type r' = pick "Type" lines (type r) /\
    state r' = pick "State" lines (state r) /\
    author r' = pick "Author" lines (author r) /\
    created_at r' = pick "Created at" lines (created_at r).
Proof.
  induction lines as [|l rest IH]; intros r; cbn zeta.
  - repeat split; reflexivity.
  - cbn [fold_left]. rewrite !pick_cons.
    destruct (scanLine_fields r l) as (T & U & R & Y & S & A & C).
    destruct (IH (scanLine r l)) as (T' & U' & R' & Y' & S' & A' & C').
    cbn zeta in *.
    rewrite T', U', R', Y', S', A', C', T, U, R, Y, S, A, C.
    repeat split; reflexivity.
Qed.

(** A line that is no field line changes nothing. *)
Lemma scanLine_noField (r : SearchResult) (line : str) :
  noFieldLine line = true -> scanLine r line = r.
Proof.
  unfold noFieldLine, scanLine. intros H.
  destruct (group1 (fieldRe "URL") line),
           (group1 (fieldRe "Repository") line),
           (group1 (fieldRe "Type") line),
           (group1 (fieldRe "State") line),
           (group1 (fieldRe "Author") line),
           (group1 (fieldRe "Created at") line);
    try discriminate H.
  destruct r; reflexivity.
Qed.

Lemma result_eta (a b : SearchResult) :
  title a = title b -> url a = url b -> repository a = repository b ->
  type a = type b -> state a = state b -> author a = author b ->
  created_at a = created_at b -> a = b.
Proof.
  destruct a, b; simpl; intros; subst; reflexivity.
Qed.

(** What one block is parsed to, field by field. *)
Lemma parseSection_spec (block : str) (r : SearchResult) :
  parseSection block = Some r <->
  exists t u,
    headingTitle block = Some t /\ t <> [] /\
    fieldValue "URL" block = Some u /\ u <> [] /\
    r = mkResult t u
          (orDefault [] (fieldValue "Repository" block))
          (orDefault (js "issue") (fieldValue "Type" block))
          (orDefault (js "open") (fieldValue "State" block))
          (orDefault [] (fieldValue "Author" block))
          (orDefault [] (fieldValue "Created at" block)).
Proof.
  unfold parseSection, headingTitle, fieldValue, blockLines.
  set (lines := split [LF] (trim block)).
  split.
  - intros H.
    destruct (Nat.ltb (List.length lines) 2); [discriminate|].
    destruct (group1 titleRe (hd [] lines)) as [t|] eqn:Ht; [|discriminate].
    destruct (scan_fields (tl lines) (blank t)) as (T & U & R & Y & S & A & C).
    cbn zeta in *. unfold pick in *. cbn [blank title url repository type
      state author created_at] in *.
    set (r' := fold_left scanLine (tl lines) (blank t)) in *.
    destruct (isEmpty (url r')) eqn:Eu; [discriminate|].
    destruct (isEmpty (title r')) eqn:Et; [discriminate|].
    cbn [negb andb] in H. injection H as <-.
    exists t, (url r').
    destruct (lastMatch "URL" (tl lines)) as [u|] eqn:Hu;
      cbn [orDefault] in U; [|rewrite U in Eu; discriminate].
    repeat split.
    + eapply group1_not_empty. exact Ht.
    + rewrite U. reflexivity.
    + intros Hnil. rewrite Hnil in Eu. discriminate.
    + apply result_eta; cbn [title url repository type state author
        created_at]; assumption || reflexivity.
  - intros (t & u & Ht & Hne & Hu & Hue & ->).
    assert (Hlen : Nat.ltb (List.length lines) 2 = false).
    { destruct lines as [|l0 [|l1 rest]]; try reflexivity;
        unfold lastMatch in Hu; simpl in Hu; discriminate. }
    rewrite Hlen, Ht.
    destruct (scan_fields (tl lines) (blank t)) as (T & U & R & Y & S & A & C).
    cbn zeta in *. unfold pick in *. cbn [blank title url repository type
      state author created_at] in *.
    set (r' := fold_left scanLine (tl lines) (blank t)) in *.
    rewrite Hu in U. cbn [orDefault] in U.
    rewrite U, T.
    destruct u; [congruence|]. destruct t; [congruence|].
    cbn [isEmpty negb andb]. f_equal.
    apply result_eta; cbn [title url repository type state author
      created_at]; assumption.
Qed.

(** *** Where the payload is cut *)

Lemma startsWith_app (p s : str) :
  startsWith p s = true -> s = p ++ skipn (List.length p) s.
Proof.
  revert s. induction p as [|a p IH]; intros s H; simpl.
  - reflexivity.
  - destruct s as [|b s]; simpl in H; [discriminate|].
    apply andb_prop in H. destruct H as [Hab Hp].
    apply N.eqb_eq in Hab. subst b. f_equal. apply IH. exact Hp.
Qed.

Lemma splitFrom_skip (sep pre rest : str) :
  splitFrom sep (List.length pre) (pre ++ rest) = splitFrom sep 0 rest.
Proof.
  induction pre as [|c pre IH]; simpl; [reflexivity|exact IH].
Qed.

Lemma join_consHead (sep : str) (c : char) (l : list str) :
  l <> [] -> join sep (consHead c l) = c :: join sep l.
Proof.
  destruct l as [|p [|p' ps]]; intros H; [congruence| |]; reflexivity.
Qed.

(** The pieces of a split, joined with the separator, are the text. *)
Lemma join_split (sep s : str) : sep <> [] -> join sep (split sep s) = s.
Proof.
  intros Hsep. unfold split.
  remember (List.length s) as n eqn:Hn.
  assert (Hle : List.length s <= n) by lia. clear Hn.
  revert s Hle. induction n as [|n IH]; intros s Hle.
  - destruct s; [reflexivity|simpl in Hle; lia].
  - destruct s as [|c r]; [reflexivity|].
    cbn [splitFrom].
    destruct (startsWith sep (c :: r)) eqn:Hs.
    + pose proof (startsWith_app sep (c :: r) Hs) as Heq.
      destruct sep as [|c' sep']; [congruence|].
      cbn [List.length skipn app] in Heq. injection Heq as Hc Hr.
      replace (List.length (c' :: sep') - 1) with (List.length sep')
        by (cbn [List.length]; lia).
      rewrite Hr at 1. rewrite splitFrom_skip.
      pose proof (splitFrom_not_nil (c' :: sep') (skipn (List.length sep') r) 0)
        as Hne.
      destruct (splitFrom (c' :: sep') 0 (skipn (List.length sep') r))
        as [|p ps] eqn:E; [congruence|].
      change (join (c' :: sep') ([] :: p :: ps))
        with ((c' :: sep') ++ join (c' :: sep') (p :: ps)).
      rewrite <- E, IH.
      * cbn [app]. rewrite <- Hr, <- Hc. reflexivity.
      * simpl in Hle. rewrite length_skipn. lia.
    + rewrite join_consHead by apply splitFrom_not_nil.
      rewrite IH; [reflexivity|]. simpl in Hle. lia.
Qed.

(** The first cut is at the first place where three hyphens stand, whatever
    is around them. *)
Lemma split_at_dashes (a b : str) :
  includes dashes (a ++ js "--") = false ->
  split dashes (a ++ dashes ++ b) = a :: split dashes b.
Proof.
  unfold split.
  induction a as [|c a IH]; intros H.
  - reflexivity.
  - cbn [includes app] in H. apply orb_false_iff in H.
    destruct H as [Hhere Hlater].
    cbn [app splitFrom].
    assert (Hs : startsWith dashes (c :: a ++ dashes ++ b) = false).
    { rewrite <- Hhere. clear.
      destruct a as [|x [|y a]]; reflexivity. }
    rewrite Hs, (IH Hlater). reflexivity.
Qed.

Lemma parseSection_blank (block : str) :
  isBlank block = true -> parseSection block = None.
Proof.
  unfold isBlank, parseSection. intros H.
  destruct (trim block); [reflexivity|discriminate].
Qed.

Lemma accepted_sectionsOf_cut (a b : str) :
  includes dashes (a ++ js "--") = false ->
  flat_map accepted (sectionsOf (a ++ dashes ++ b)) =
  accepted a ++ flat_map accepted (sectionsOf b).
Proof.
  intros H. unfold sectionsOf.
  change (js "---") with dashes. rewrite (split_at_dashes a b H).
  cbn [filter]. destruct (isBlank a) eqn:Hb; cbn [negb flat_map].
  - unfold accepted at 2. rewrite (parseSection_blank a Hb). reflexivity.
  - reflexivity.
Qed.

(** *** Order *)

Lemma subsequence_nil {A : Type} (l : list A) : Subsequence [] l.
Proof. induction l; constructor; assumption. Qed.

Lemma subsequence_filter {A : Type} (f : A -> bool) (l : list A) :
  Subsequence (filter f l) l.
Proof.
  induction l as [|x l IH]; simpl; [constructor|].
  destruct (f x); constructor; assumption.
Qed.

Lemma subsequence_accepted (sections : list str) :
  forall n,
    Subsequence (map Some (firstn n (flat_map accepted sections)))
                (map parseSection sections).
Proof.
  induction sections as [|b rest IH]; intros n.
  - rewrite firstn_nil. constructor.
  - cbn [flat_map map]. unfold accepted at 1.
    destruct (parseSection b) as [r|] eqn:E.
    + destruct n as [|m]; cbn [app firstn map].
      * apply subsequence_nil.
      * apply sub_keep. apply IH.
    + cbn [app]. apply sub_skip. apply IH.
Qed.

End ParserFacts.

(* ================================================================== *)
(** ** Further facts *)
(* ================================================================== *)

Module MoreFacts.
Import Regex StringFacts JsonFacts SessionFacts ParserFacts.

Lemma eqb_str_true (a b : str) : eqb_str a b = true -> a = b.
Proof.
  unfold eqb_str. destruct (list_eq_dec N.eq_dec a b); [auto|discriminate].
Qed.

Lemma eqb_str_refl (a : str) : eqb_str a a = true.
Proof.
  unfold eqb_str. destruct (list_eq_dec N.eq_dec a a); [reflexivity|].
  congruence.
Qed.

(** A text with one colon is put together from its two sides in one way. *)
Lemma colon_split (a b x y : str) :
  hasChar 58%N a = false -> hasChar 58%N b = false ->
  x ++ 58%N :: y = a ++ 58%N :: b -> x = a /\ y = b.
Proof.
  revert x. induction a as [|c a IH]; intros x Ha Hb H.
  - destruct x as [|d x]; cbn [app] in H.
    + injection H as <-. auto.
    + injection H as -> <-. exfalso.
      unfold hasChar in Hb. rewrite existsb_app in Hb. cbn [existsb] in Hb.
      rewrite N.eqb_refl, orb_true_r in Hb. discriminate.
  - unfold hasChar in Ha. cbn [existsb] in Ha.
    apply orb_false_iff in Ha. destruct Ha as [Hc Ha].
    destruct x as [|d x]; cbn [app] in H.
    + injection H as <- _. rewrite N.eqb_refl in Hc. discriminate.
    + injection H as -> H. destruct (IH x Ha Hb H) as [-> ->]. auto.
Qed.

Lemma key_is_pair (type state a b : str) :
  hasChar 58%N a = false -> hasChar 58%N b = false ->
  eqb_str (type ++ js ":" ++ state) (a ++ 58%N :: b) = true ->
  (type, state) = (a, b).
Proof.
  intros Ha Hb H. apply eqb_str_true in H.
  change (js ":" ++ state) with (58%N :: state) in H.
  destruct (@colon_split a b type state Ha Hb H) as [-> ->]. reflexivity.
Qed.


Lemma spaces_trimStart (s : str) :
  forallb isSpace s = true -> trimStart s = [].
Proof.
  induction s as [|c r IH]; simpl; [reflexivity|].
  intros H. apply andb_prop in H. destruct H as [Hc Hr].
  rewrite Hc. apply IH. exact Hr.
Qed.

Lemma spaces_isBlank (s : str) : forallb isSpace s = true -> isBlank s = true.
Proof.
  intros H. unfold isBlank, trim, trimEnd.
  rewrite (spaces_trimStart s H). reflexivity.
Qed.

(** A replacement text without dollar sign stands for itself. *)
Lemma substitution_plain (replacement matched before after : str) :
  hasChar 36%N replacement = false ->
  substitution replacement matched before after = replacement.
Proof.
  induction replacement as [|d rest IH]; intros H; [reflexivity|].
  unfold hasChar in H. cbn [existsb] in H. apply orb_false_iff in H.
  destruct H as [Hd Hrest]. cbn [substitution].
  rewrite N.eqb_sym, Hd. f_equal. apply IH. exact Hrest.
Qed.

(** No piece of a split on the line feed holds a line feed. *)
Lemma split_pieces_no_LF (s : str) :
  Forall (fun piece => hasChar LF piece = false) (split [LF] s).
Proof.
  unfold split. induction s as [|c r IH]; cbn [splitFrom].
  - repeat constructor.
  - cbn [startsWith]. destruct (N.eqb LF c) eqn:E; cbn [andb].
    + constructor; [reflexivity|exact IH].
    + pose proof (splitFrom_not_nil [LF] r 0) as Hne.
      destruct (splitFrom [LF] 0 r) as [|p ps]; [congruence|].
      inversion IH as [|? ? Hp Hps]; subst. cbn [consHead].
      constructor; [|exact Hps].
      unfold hasChar in *. cbn [existsb]. rewrite E, Hp. reflexivity.
Qed.

(** *** The stderr text *)

Lemma lineStep_errorData (query line : str) (s : Session) out :
  LineStep query line s out -> errorData (fst out) = errorData s.
Proof. intros H. destruct H; reflexivity. Qed.

Lemma step_errorData (host : Host) (query : str) (s : Session) (e : Event) :
  errorData (step host query s e) =
  errorData s ++ match e with StderrData d => d | _ => [] end.
Proof.
  destruct e as [data|data|code msg|code|]; cbn [step];
    rewrite ?app_nil_r.
  - unfold onStdoutData.
    destruct (frame (responseData s) data) as [lines buffer].
    apply handleLines_invariant
      with (P := fun t => errorData t = errorData s).
    + intros line t out _ Ht Hl.
      rewrite (lineStep_errorData Hl). exact Ht.
    + reflexivity.
  - reflexivity.
  - unfold onError.
    destruct code as [c|]; [destruct (eqb_str c _)|]; reflexivity.
  - unfold onClose. cbn [hasReceivedResponse clearTimeout].
    destruct (hasReceivedResponse s); cbn [negb];
      [|destruct (match code with Some 0%Z => false | _ => true end);
        [|destruct (parseMCPResponse _)]]; reflexivity.
  - destruct (responseTimeout s); [|reflexivity].
    unfold onTimeout. cbn [hasReceivedResponse timerGone].
    destruct (hasReceivedResponse s); reflexivity.
Qed.

Lemma runFrom_errorData (host : Host) (query : str) (events : list Event) :
  forall s,
    errorData (runFrom host query s events) = errorData s ++ stderrText events.
Proof.
  induction events as [|e rest IH]; intros s.
  - cbn. rewrite app_nil_r. reflexivity.
  - change (runFrom host query s (e :: rest))
      with (runFrom host query (step host query s e) rest).
    rewrite IH, step_errorData, <- app_assoc. reflexivity.
Qed.


(** *** Lines and chunks *)

Lemma split_first_line (a b : str) :
  hasChar LF a = false -> split [LF] (a ++ LF :: b) = a :: split [LF] b.
Proof.
  unfold split, hasChar. induction a as [|c a IH]; intros H.
  - cbn [app splitFrom startsWith]. rewrite N.eqb_refl. reflexivity.
  - cbn [existsb] in H. apply orb_false_iff in H. destruct H as [Hc Ha].
    cbn [app splitFrom startsWith]. rewrite Hc. cbn [andb].
    rewrite (IH Ha). reflexivity.
Qed.

Lemma frame_first_line (buffer head tail : str) :
  hasChar LF (buffer ++ head) = false ->
  frame buffer (head ++ LF :: tail) =
    ((buffer ++ head) :: removelast (split [LF] tail),
     last (split [LF] tail) []).
Proof.
  intros H. unfold frame. rewrite app_assoc, (@split_first_line (buffer ++ head) tail H).
  pose proof (split_not_nil [LF] tail) as Hne.
  destruct (split [LF] tail) as [|p ps]; [congruence|]. reflexivity.
Qed.

(** A tool-call response whose payload text is a string. *)
Lemma parseMCPResponse_payload (line text : str) :
  hasChar LF line = false ->
  isBlank line = false ->
  payloadText line = Some (JStr text) ->
  parseMCPResponse line = Normal (parseSearchResults text).
Proof.
  intros Hlf Hb Hp.
  unfold parseMCPResponse. rewrite (split_single_line line Hlf).
  cbn [filter]. rewrite Hb. cbn [negb parseResponseLines].
  unfold payloadText in Hp. unfold tryResponseLine.
  destruct (JSON_parse line) as [response|]; [|discriminate]. cbn [bind].
  destruct (get response "result") as [result|]; [|discriminate].
  cbn [bind].
  destruct (get result "content") as [content|]; [|discriminate].
  destruct (truthy result); [|discriminate]. cbn [bind andb] in *.
  destruct (truthy content); [|discriminate]. cbn [bind].
  destruct (index0 content) as [first|]; [|discriminate]. cbn [bind].
  destruct (getOpt first "text") as [t|]; [|discriminate]. cbn [bind].
  injection Hp as ->. reflexivity.
Qed.

Lemma handleLine_response (query line text : str) (s : Session) :
  hasChar LF line = false ->
  carriesResult 2 line = true ->
  payloadText line = Some (JStr text) ->
  handleLine query line s =
    (emit (Resolve (parseSearchResults text))
       (emit Kill (clearTimeout (setHasReceivedResponse s))),
     Return).
Proof.
  intros Hlf Hc Hp.
  destruct (carriesResult_inv 2 line Hc)
    as (message & id & result & Hm & Hid & Hres & H2 & Ht).
  pose proof (JSON_parse_not_blank line Hm) as Hb.
  unfold handleLine. rewrite Hb.
  unfold tryMessageLine. rewrite Hm. cbn [bind].
  rewrite Hid. cbn [bind].
  rewrite (strictEqNum_2_not_1 id H2), H2, Hres. cbn [bind].
  rewrite Ht, (@parseMCPResponse_payload line text Hlf Hb Hp).
  reflexivity.
Qed.

Lemma handleLine_noise (query line : str) (s : Session) :
  noiseLine line = true -> handleLine query line s = (s, Continue).
Proof.
  unfold noiseLine, handleLine. intros H.
  destruct (isBlank line); [reflexivity|]. cbn [orb] in H.
  unfold tryMessageLine.
  destruct (JSON_parse line); [discriminate|]. reflexivity.
Qed.


(** *** The lines [parseMCPResponse] returns from *)

Lemma tryResponseLine_records (line : str) :
  match recordsText line with
  | Some t => tryResponseLine line = Normal (Some (parseSearchResults t))
  | None => forall rs, tryResponseLine line <> Normal (Some rs)
  end.
Proof.
  unfold recordsText, payloadText, tryResponseLine.
  destruct (JSON_parse line) as [response|]; cbn [bind];
    [|intros rs H; discriminate].
  destruct (get response "result") as [result|]; cbn [bind];
    [|intros rs H; discriminate].
  destruct (truthy result) eqn:Ht; cbn [bind andb].
  - destruct (get result "content") as [content|]; cbn [bind];
      [|intros rs H; discriminate].
    destruct (truthy content); cbn [bind].
    + destruct (index0 content) as [first|]; cbn [bind];
        [|intros rs H; discriminate].
      destruct (getOpt first "text") as [t|]; cbn [bind];
        [|intros rs H; discriminate].
      destruct (orElse t (JStr [])); cbn [callParseSearchResults bind];
        try (intros rs H; discriminate).
      reflexivity.
    + intros rs. destruct (get response "error") as [err|]; cbn [bind];
        [|discriminate].
      destruct (truthy err); [|discriminate].
      destruct (get err "message"); cbn [bind]; discriminate.
  - destruct (get result "content") as [content|];
      intros rs; destruct (get response "error") as [err|]; cbn [bind];
      try discriminate;
      (destruct (truthy err); [|discriminate];
       destruct (get err "message"); cbn [bind]; discriminate).
Qed.

Lemma parseResponseLines_first (skipped : list str) (line text : str)
  (rest : list str) :
  Forall (fun l => recordsText l = None) skipped ->
  recordsText line = Some text ->
  parseResponseLines (skipped ++ line :: rest)
    = Normal (parseSearchResults text).
Proof.
  intros Hs Hl. induction Hs as [|l skipped Hl0 Hs IH]; cbn [app].
  - cbn [parseResponseLines].
    pose proof (tryResponseLine_records line) as H. rewrite Hl in H.
    rewrite H. reflexivity.
  - cbn [parseResponseLines].
    pose proof (tryResponseLine_records l) as H. rewrite Hl0 in H.
    destruct (tryResponseLine l) as [[rs|]|e];
      [exfalso; apply (H rs); reflexivity|exact IH|exact IH].
Qed.

Lemma parseResponseLines_none (lines : list str) :
  Forall (fun l => recordsText l = None) lines ->
  parseResponseLines lines = Normal [].
Proof.
  intros Hs. induction Hs as [|l lines Hl0 Hs IH]; [reflexivity|].
  cbn [parseResponseLines].
  pose proof (tryResponseLine_records l) as H. rewrite Hl0 in H.
  destruct (tryResponseLine l) as [[rs|]|e];
    [exfalso; apply (H rs); reflexivity|exact IH|exact IH].
Qed.

Lemma recordsText_not_blank (line text : str) :
  recordsText line = Some text -> isBlank line = false.
Proof.
  unfold recordsText, payloadText. intros H.
  destruct (JSON_parse line) as [v|] eqn:E; [|discriminate].
  eapply JSON_parse_not_blank. exact E.
Qed.

Lemma Forall_filter {A : Type} (P : A -> Prop) (f : A -> bool) (l : list A) :
  Forall P l -> Forall P (filter f l).
Proof.
  intros H. induction H as [|x l Hx Hl IH]; cbn [filter]; [constructor|].
  destruct (f x); [constructor|]; assumption.
Qed.

(** *** What the groups of a match hold *)

Lemma exec_groups (p : pattern) :
  forall s caps,
    exec p s = Some caps ->
    Forall2 (fun k g => g <> [] /\ forallb (accepts k) g = true)
            (groupsOf p) caps.
Proof.
  induction p as [|it p' IH]; intros s caps H.
  - simpl in H. destruct s; [|discriminate].
    injection H as <-. constructor.
  - destruct it as [k|k|k]; cbn [groupsOf]; simpl in H.
    + destruct s as [|c r]; [discriminate|].
      destruct (accepts k c); [|discriminate]. eapply IH; eassumption.
    + revert caps H. induction s as [|c r IHs]; intros caps H.
      * eapply IH; eassumption.
      * destruct (accepts k c).
        -- match type of H with
           | match ?x with _ => _ end = _ => destruct x as [caps'|] eqn:E
           end.
           ++ injection H as <-. apply IHs. reflexivity.
           ++ eapply IH; eassumption.
        -- eapply IH; eassumption.
    + match type of H with
      | ?f [] s = _ =>
          assert (G : forall r taken caps',
                     forallb (accepts k) taken = true ->
                     f taken r = Some caps' ->
                     Forall2 (fun k g => g <> [] /\
                                         forallb (accepts k) g = true)
                             (k :: groupsOf p') caps')
      end.
      { clear s caps H.
        induction r as [|c r IHs]; intros taken caps Ht H; [discriminate|].
        destruct (accepts k c) eqn:Ec; [|discriminate].
        assert (Ht' : forallb (accepts k) (taken ++ [c]) = true).
        { rewrite forallb_app, Ht. cbn. rewrite Ec. reflexivity. }
        match type of H with
        | match ?x with _ => _ end = _ => destruct x as [caps'|] eqn:E
        end.
        - injection H as <-. eapply IHs; [exact Ht'|exact E].
        - destruct (exec p' r) as [caps'|] eqn:E'; [|discriminate].
          injection H as <-. constructor.
          + split; [destruct taken; discriminate|exact Ht'].
          + eapply IH; eassumption. }
      exact (G s [] caps eq_refl H).
Qed.

Lemma groupsOf_lits (l : string) (p : pattern) :
  groupsOf (lits l ++ p) = groupsOf p.
Proof.
  unfold lits. induction (js l) as [|c r IH]; [reflexivity|exact IH].
Qed.

Lemma dot_no_terminator (g : str) :
  forallb (accepts Dot) g = true -> hasLineTerminator g = false.
Proof.
  unfold hasLineTerminator. induction g as [|c g IH]; [reflexivity|].
  cbn [forallb existsb accepts]. intros H. apply andb_prop in H.
  destruct H as [Hc Hg]. rewrite (IH Hg).
  destruct (isLineTerminator c); [discriminate|reflexivity].
Qed.

Lemma titleRe_group (line t : str) :
  group1 titleRe line = Some t -> t <> [] /\ hasLineTerminator t = false.
Proof.
  unfold group1. intros H.
  destruct (exec titleRe line) as [[|g caps]|] eqn:E; try discriminate.
  injection H as <-.
  pose proof (exec_groups titleRe line E) as F.
  change (groupsOf titleRe) with [Dot] in F.
  inversion F as [|? ? ? ? [Hne Hd] _]; subst.
  split; [exact Hne|apply dot_no_terminator; exact Hd].
Qed.

Lemma fieldRe_group (label : string) (line v : str) :
  group1 (fieldRe label) line = Some v ->
  v <> [] /\ hasLineTerminator v = false.
Proof.
  unfold group1. intros H.
  destruct (exec (fieldRe label) line) as [[|g caps]|] eqn:E;
    try discriminate.
  injection H as <-.
  pose proof (exec_groups (fieldRe label) line E) as F.
  unfold fieldRe in F.
  rewrite groupsOf_lits in F. cbn [app groupsOf] in F.
  rewrite !groupsOf_lits in F. cbn [groupsOf] in F.
  inversion F as [|? ? ? ? [Hne Hd] _]; subst.
  split; [exact Hne|apply dot_no_terminator; exact Hd].
Qed.

Lemma lastMatch_group (label : string) (lines : list str) (v : str) :
  lastMatch label lines = Some v ->
  exists line, In line lines /\ group1 (fieldRe label) line = Some v.
Proof.
  induction lines as [|l rest IH]; [discriminate|].
  rewrite lastMatch_cons.
  destruct (lastMatch label rest) as [w|].
  - intros H. injection H as <-. destruct (IH eq_refl) as (line & Hin & Hg).
    exists line. split; [right; exact Hin|exact Hg].
  - intros H. exists l. split; [left; reflexivity|exact H].
Qed.

Lemma orDefault_single (label : string) (lines : list str) (d : str) :
  hasLineTerminator d = false ->
  hasLineTerminator (orDefault d (lastMatch label lines)) = false.
Proof.
  intros Hd. destruct (lastMatch label lines) as [v|] eqn:E; [|exact Hd].
  destruct (lastMatch_group label lines E) as (line & _ & Hg).
  apply fieldRe_group in Hg. exact (proj2 Hg).
Qed.

Lemma parseSection_singleLined (block : str) (r : SearchResult) :
  parseSection block = Some r ->
  title r <> [] /\ url r <> [] /\ singleLined r.
Proof.
  intros H. apply parseSection_spec in H.
  destruct H as (t & u & Ht & Hne & Hu & Hue & ->).
  cbn [title url]. split; [exact Hne|]. split; [exact Hue|].
  unfold singleLined, fieldValue, headingTitle in *.
  cbn [title url repository type state author created_at].
  apply titleRe_group in Ht.
  destruct (lastMatch_group _ _ Hu) as (line & _ & Hg).
  apply fieldRe_group in Hg.
  repeat split; try (apply orDefault_single; reflexivity); tauto.
Qed.

Lemma in_firstn {A : Type} (n : nat) (l : list A) (x : A) :
  In x (firstn n l) -> In x l.
Proof.
  revert l. induction n as [|n IH]; intros l H; [destruct H|].
  destruct l as [|y l]; [destruct H|].
  cbn [firstn] in H. destruct H as [->|H]; [left; reflexivity|].
  right. apply IH. exact H.
Qed.


(** *** Trimming *)

Lemma trimStart_spaces_app (pre x : str) :
  forallb isSpace pre = true -> trimStart (pre ++ x) = trimStart x.
Proof.
  induction pre as [|c pre IH]; intros H; [reflexivity|].
  cbn [forallb] in H. apply andb_prop in H. destruct H as [Hc Hp].
  cbn [app trimStart]. rewrite Hc. apply IH. exact Hp.
Qed.

Lemma trimStart_app_spaces (x post : str) :
  forallb isSpace post = true ->
  trimStart (x ++ post) =
  match trimStart x with
  | [] => []
  | _ => trimStart x ++ post
  end.
Proof.
  intros H. induction x as [|c x IH]; cbn [app].
  - cbn [trimStart]. apply spaces_trimStart. exact H.
  - cbn [trimStart]. destruct (isSpace c); [exact IH|reflexivity].
Qed.

Lemma forallb_rev {A : Type} (f : A -> bool) (l : list A) :
  forallb f l = true -> forallb f (rev l) = true.
Proof.
  rewrite !forallb_forall. intros H x Hx. apply H. apply in_rev. exact Hx.
Qed.

Lemma trimEnd_app_spaces (x post : str) :
  forallb isSpace post = true -> trimEnd (x ++ post) = trimEnd x.
Proof.
  intros H. unfold trimEnd. rewrite rev_app_distr.
  rewrite trimStart_spaces_app by (apply forallb_rev; exact H).
  reflexivity.
Qed.

(** White space around a block does not count. *)
Lemma trim_pad (pre b post : str) :
  forallb isSpace pre = true -> forallb isSpace post = true ->
  trim (pre ++ b ++ post) = trim b.
Proof.
  intros Hpre Hpost. unfold trim.
  rewrite trimStart_spaces_app by exact Hpre.
  rewrite trimStart_app_spaces by exact Hpost.
  destruct (trimStart b) as [|c r] eqn:E; [reflexivity|].
  apply trimEnd_app_spaces. exact Hpost.
Qed.

Lemma trimEnd_unit (y : str) (c : char) :
  isSpace c = false -> trimEnd (y ++ [c]) = y ++ [c].
Proof.
  intros H. unfold trimEnd. rewrite rev_unit. cbn [trimStart]. rewrite H.
  cbn [rev]. rewrite rev_involutive. reflexivity.
Qed.

Lemma trimEnd_last (s : str) :
  s <> [] -> isSpace (last s 32%N) = false -> trimEnd s = s.
Proof.
  intros Hne Hl.
  pose proof (app_removelast_last 32%N Hne) as E.
  rewrite E. apply trimEnd_unit. exact Hl.
Qed.

Lemma parseSection_pad (pre b post : str) :
  forallb isSpace pre = true -> forallb isSpace post = true ->
  parseSection (pre ++ b ++ post) = parseSection b.
Proof.
  intros Hpre Hpost. unfold parseSection.
  rewrite (@trim_pad pre b post Hpre Hpost). reflexivity.
Qed.

(** *** Lines that match *)

Lemma exec_lits (l : string) (p : pattern) (s : str) :
  exec (lits l ++ p) (js l ++ s) = exec p s.
Proof.
  unfold lits. induction (js l) as [|c r IH]; [reflexivity|].
  cbn [map app exec accepts]. rewrite N.eqb_refl. exact IH.
Qed.

Lemma exec_star (k : cls) (p : pattern) (ws s : str) (caps : list str) :
  forallb (accepts k) ws = true ->
  match s with
  | c :: _ => accepts k c = false
  | [] => True
  end ->
  exec p s = Some caps ->
  exec (Star k :: p) (ws ++ s) = Some caps.
Proof.
  intros Hws Hs Hp. cbn [exec].
  induction ws as [|w ws IH]; cbn [app].
  - destruct s as [|c r]; [exact Hp|]. rewrite Hs. exact Hp.
  - cbn [forallb] in Hws. apply andb_prop in Hws. destruct Hws as [Hw Hws].
    rewrite Hw, (IH Hws). reflexivity.
Qed.

Lemma exec_plus_all (k : cls) (v : str) :
  v <> [] -> forallb (accepts k) v = true ->
  exec [GroupPlus k] v = Some [v].
Proof.
  intros Hne Hv. cbn [exec].
  match goal with
  | |- ?f [] v = _ =>
      assert (G : forall r taken,
                 r <> [] -> forallb (accepts k) r = true ->
                 f taken r = Some [taken ++ r])
  end.
  { clear v Hne Hv.
    induction r as [|c r IH]; intros taken Hne Hr; [congruence|].
    cbn [forallb] in Hr. apply andb_prop in Hr. destruct Hr as [Hc Hr].
    rewrite Hc. destruct r as [|c' r'].
    - reflexivity.
    - rewrite (IH (taken ++ [c])) by (discriminate || exact Hr).
      rewrite <- app_assoc. reflexivity. }
  exact (G v [] Hne Hv).
Qed.

Lemma plain_parts (v : str) :
  plainValue v = true ->
  v <> [] /\ forallb (accepts Dot) v = true /\
  match v with
  | c :: _ => accepts Space c = false
  | [] => True
  end.
Proof.
  unfold plainValue. destruct v as [|c r]; [discriminate|].
  intros H. apply andb_prop in H. destruct H as [Hc Hl].
  split; [discriminate|]. split.
  - unfold hasLineTerminator in Hl. apply negb_true_iff in Hl.
    revert Hl. generalize (c :: r). intros l.
    induction l as [|x l IH]; [reflexivity|].
    cbn [existsb forallb accepts]. intros H.
    apply orb_false_iff in H. destruct H as [Hx Hl].
    rewrite Hx, (IH Hl). reflexivity.
  - cbn [accepts]. apply negb_true_iff. exact Hc.
Qed.

(** The tail [\s*(.+)$] of the patterns on white space and a plain value. *)
Lemma exec_value (ws v : str) :
  forallb isSpace ws = true -> plainValue v = true ->
  exec [Star Space; GroupPlus Dot] (ws ++ v) = Some [v].
Proof.
  intros Hws Hv. destruct (plain_parts v Hv) as (Hne & Hd & Hs).
  apply exec_star; [exact Hws|exact Hs|].
  apply exec_plus_all; assumption.
Qed.

Lemma titleRe_matches (ws v : str) :
  forallb isSpace ws = true -> plainValue v = true ->
  group1 titleRe (js "##" ++ ws ++ v) = Some v.
Proof.
  intros Hws Hv. unfold group1, titleRe.
  rewrite exec_lits, (@exec_value ws v Hws Hv). reflexivity.
Qed.

Lemma fieldRe_matches (label : string) (ws1 ws2 v : str) :
  In label labels ->
  forallb isSpace ws1 = true -> forallb isSpace ws2 = true ->
  plainValue v = true ->
  group1 (fieldRe label) (js "-" ++ ws1 ++ js label ++ js ":" ++ ws2 ++ v)
    = Some v.
Proof.
  intros Hl H1 H2 Hv. unfold group1, fieldRe.
  rewrite exec_lits. cbn [app].
  rewrite (@exec_star Space _ ws1 _ [v] H1).
  - reflexivity.
  - cbn in Hl.
    repeat (destruct Hl as [<-|Hl]; [reflexivity|]). destruct Hl.
  - rewrite !exec_lits. apply exec_value; assumption.
Qed.


(** *** Blocks in the layout of the format *)

Lemma split_join_lines (lines : list str) :
  lines <> [] ->
  Forall (fun l => hasChar LF l = false) lines ->
  split [LF] (join [LF] lines) = lines.
Proof.
  intros Hne H. induction H as [|a rest Ha Hrest IH]; [congruence|].
  destruct rest as [|b rest].
  - cbn [join]. apply split_single_line. exact Ha.
  - change (join [LF] (a :: b :: rest))
      with (a ++ LF :: join [LF] (b :: rest)).
    rewrite (@split_first_line a _ Ha). f_equal. apply IH. discriminate.
Qed.

Lemma last_app_ne (x y : str) (d : char) :
  y <> [] -> last (x ++ y) d = last y d.
Proof.
  intros Hy. induction x as [|c x IH]; [reflexivity|].
  cbn [app]. destruct (x ++ y) as [|z zs] eqn:E.
  - apply app_eq_nil in E. destruct E; congruence.
  - cbn [last]. exact IH.
Qed.

Lemma last_join (lines : list str) (d : char) :
  lines <> [] -> last lines [] <> [] ->
  last (join [LF] lines) d = last (last lines []) d.
Proof.
  intros Hne Hl. induction lines as [|a rest IH]; [congruence|].
  destruct rest as [|b rest]; [reflexivity|].
  change (join [LF] (a :: b :: rest))
    with (a ++ LF :: join [LF] (b :: rest)).
  change (last (a :: b :: rest) []) with (last (b :: rest) []) in *.
  rewrite last_app_ne by discriminate.
  change (LF :: join [LF] (b :: rest)) with ([LF] ++ join [LF] (b :: rest)).
  assert (Hj : join [LF] (b :: rest) <> []).
  { destruct rest as [|c rest]; cbn [join last] in *; [exact Hl|].
    intros E. apply app_eq_nil in E. destruct E; discriminate. }
  rewrite (@last_app_ne [LF] (join [LF] (b :: rest)) d Hj).
  apply IH; [discriminate|exact Hl].
Qed.

Lemma plain_no_LF (v : str) : plainValue v = true -> hasChar LF v = false.
Proof.
  intros H. destruct (plain_parts v H) as (_ & Hd & _).
  unfold hasChar. clear H. induction v as [|c v IH]; [reflexivity|].
  cbn [forallb existsb accepts] in *.
  apply andb_prop in Hd. destruct Hd as [Hc Hv]. rewrite (IH Hv).
  unfold isLineTerminator in Hc.
  destruct (N.eqb_spec LF c) as [<-|]; [discriminate|reflexivity].
Qed.

Lemma hasChar_app (c : char) (a b : str) :
  hasChar c (a ++ b) = hasChar c a || hasChar c b.
Proof. apply existsb_app. Qed.

Ltac other_labels :=
  repeat match goal with
         | |- context [group1 (fieldRe ?l) (js ?pre ++ ?v)] =>
             replace (group1 (fieldRe l) (js pre ++ v)) with (@None str)
               by (vm_compute; reflexivity)
         end.

Lemma scan_block_lines (r : SearchResult) :
  plainRecord r = true ->
  fold_left scanLine (tl (linesOf r)) (blank (title r)) = r.
Proof.
  unfold plainRecord. intros H.
  repeat (apply andb_prop in H; destruct H as [H ?]).
  unfold linesOf. cbn [tl fold_left]. unfold scanLine.
  assert (Hu : group1 (fieldRe "URL") (js "- URL: " ++ url r)
               = Some (url r)).
  { apply (@fieldRe_matches "URL" (js " ") (js " ") (url r));
      (cbn; tauto) || reflexivity || assumption. }
  assert (Hr : group1 (fieldRe "Repository")
                 (js "- Repository: " ++ repository r)
               = Some (repository r)).
  { apply (@fieldRe_matches "Repository" (js " ") (js " ") (repository r));
      (cbn; tauto) || reflexivity || assumption. }
  assert (Ht : group1 (fieldRe "Type") (js "- Type: " ++ type r)
               = Some (type r)).
  { apply (@fieldRe_matches "Type" (js " ") (js " ") (type r));
      (cbn; tauto) || reflexivity || assumption. }
  assert (Hs : group1 (fieldRe "State") (js "- State: " ++ state r)
               = Some (state r)).
  { apply (@fieldRe_matches "State" (js " ") (js " ") (state r));
      (cbn; tauto) || reflexivity || assumption. }
  assert (Ha : group1 (fieldRe "Author") (js "- Author: " ++ author r)
               = Some (author r)).
  { apply (@fieldRe_matches "Author" (js " ") (js " ") (author r));
      (cbn; tauto) || reflexivity || assumption. }
  assert (Hc : group1 (fieldRe "Created at")
                 (js "- Created at: " ++ created_at r)
               = Some (created_at r)).
  { apply (@fieldRe_matches "Created at" (js " ") (js " ") (created_at r));
      (cbn; tauto) || reflexivity || assumption. }
  rewrite Hu, Hr, Ht, Hs, Ha, Hc.
  other_labels.
  destruct r; reflexivity.
Qed.

Lemma blockOf_lines (r : SearchResult) :
  plainRecord r = true ->
  split [LF] (trim (blockOf r)) = linesOf r.
Proof.
  intros H. pose proof H as H'. unfold plainRecord in H.
  repeat (apply andb_prop in H; destruct H as [H ?]).
  assert (Hc : created_at r <> [])
    by (destruct (plain_parts (created_at r)) as [Hc _]; assumption).
  unfold trim. change (trimStart (blockOf r)) with (blockOf r).
  rewrite trimEnd_last.
  - unfold blockOf. apply split_join_lines; [discriminate|].
    unfold linesOf.
    repeat (constructor;
            [rewrite hasChar_app; apply orb_false_iff;
             split; [reflexivity|apply plain_no_LF; assumption]|]).
    constructor.
  - unfold blockOf, linesOf. discriminate.
  - unfold blockOf. rewrite last_join.
    + cbn [linesOf last]. rewrite last_app_ne by exact Hc.
      apply negb_true_iff. assumption.
    + discriminate.
    + cbn [linesOf last]. intros E. apply app_eq_nil in E.
      destruct E; discriminate.
Qed.

(** *** Cutting a payload of whole blocks *)

Lemma startsWith_dashes (s : str) :
  startsWith dashes s =
  match s with
  | a :: b :: c :: _ => N.eqb 45 a && N.eqb 45 b && N.eqb 45 c
  | _ => false
  end.
Proof.
  destruct s as [|a [|b [|c r]]]; try reflexivity;
    change dashes with [45%N; 45%N; 45%N]; cbn [startsWith];
    rewrite ?andb_false_r, ?andb_true_r, ?andb_assoc; reflexivity.
Qed.

Lemma includes_break (x y : str) (c : char) :
  N.eqb 45 c = false ->
  includes dashes (x ++ c :: y) = includes dashes x || includes dashes y.
Proof.
  intros Hc. induction x as [|a x IH].
  - cbn [app includes]. rewrite (startsWith_dashes (c :: y)).
    rewrite (startsWith_dashes []).
    destruct y as [|b [|b' y]]; cbn [orb]; try reflexivity.
    rewrite Hc. reflexivity.
  - cbn [app includes]. rewrite IH, orb_assoc. f_equal. f_equal.
    rewrite !startsWith_dashes.
    destruct x as [|b [|b' x]]; cbn [app]; try reflexivity.
    + destruct y as [|b y]; [reflexivity|].
      rewrite Hc, andb_false_r. reflexivity.
    + rewrite Hc, andb_false_r. reflexivity.
Qed.

Lemma includes_spaces (pre z : str) :
  forallb isSpace pre = true ->
  includes dashes (pre ++ z) = includes dashes z.
Proof.
  intros H. induction pre as [|c pre IH]; [reflexivity|].
  cbn [forallb] in H. apply andb_prop in H. destruct H as [Hc Hp].
  change ((c :: pre) ++ z) with ([] ++ c :: (pre ++ z)).
  rewrite includes_break.
  - cbn [includes startsWith orb]. apply IH. exact Hp.
  - destruct (N.eqb_spec 45 c) as [<-|]; [discriminate|reflexivity].
Qed.

Lemma split_no_dashes (s : str) :
  includes dashes s = false -> split dashes s = [s].
Proof.
  unfold split. induction s as [|c r IH]; intros H; [reflexivity|].
  cbn [includes] in H. apply orb_false_iff in H. destruct H as [Hs Hr].
  cbn [splitFrom]. rewrite Hs, (IH Hr). reflexivity.
Qed.

Lemma accepted_pad (pre b post : str) :
  forallb isSpace pre = true -> forallb isSpace post = true ->
  accepted (pre ++ b ++ post) = accepted b.
Proof.
  intros Hpre Hpost. unfold accepted.
  rewrite (@parseSection_pad pre b post Hpre Hpost). reflexivity.
Qed.

Lemma accepted_sections_single (s : str) :
  includes dashes s = false ->
  flat_map accepted (sectionsOf s) = accepted s.
Proof.
  intros H. unfold sectionsOf. change (js "---") with dashes.
  rewrite (split_no_dashes s H). cbn [filter].
  destruct (isBlank s) eqn:E; cbn [negb flat_map].
  - unfold accepted. rewrite (parseSection_blank s E). reflexivity.
  - apply app_nil_r.
Qed.

Lemma accepted_blocks (blocks : list str) :
  forall b pre,
    Forall (fun x => includes dashes x = false) (b :: blocks) ->
    forallb isSpace pre = true ->
    flat_map accepted (sectionsOf (pre ++ join dashLine (b :: blocks)))
    = flat_map accepted (b :: blocks).
Proof.
  induction blocks as [|b' rest IH]; intros b pre Hall Hpre.
  - inversion Hall as [|? ? Hb _]; subst. cbn [join flat_map].
    rewrite accepted_sections_single
      by (rewrite includes_spaces; assumption).
    rewrite app_nil_r.
    rewrite <- (app_nil_r (pre ++ b)), <- app_assoc.
    apply accepted_pad; [exact Hpre|reflexivity].
  - inversion Hall as [|? ? Hb Hrest]; subst.
    change (join dashLine (b :: b' :: rest))
      with (b ++ (LF :: dashes ++ [LF]) ++ join dashLine (b' :: rest)).
    replace (pre ++ b ++ (LF :: dashes ++ [LF]) ++ join dashLine (b' :: rest))
      with ((pre ++ b ++ [LF]) ++ dashes
              ++ ([LF] ++ join dashLine (b' :: rest)))
      by (rewrite <- !app_assoc; reflexivity).
    rewrite accepted_sectionsOf_cut.
    + rewrite (IH b' [LF] Hrest eq_refl).
      rewrite (@accepted_pad pre b [LF] Hpre eq_refl). reflexivity.
    + rewrite <- !app_assoc. rewrite (@includes_spaces pre _ Hpre).
      change ([LF] ++ js "--") with (LF :: js "--").
      rewrite includes_break by reflexivity. rewrite Hb. reflexivity.
Qed.


(** *** Chunks and lines *)

Ltac same_core :=
  cbn [fst snd];
  split; [unfold core in *; log_simpl; congruence|reflexivity].

(** The loop body reads the session only through [isInitialized], and
    changes nothing but the flags, the timer and the log. *)
Lemma handleLine_core (query line : str) (s s' : Session) :
  core s = core s' ->
  core (fst (handleLine query line s)) = core (fst (handleLine query line s'))
  /\ snd (handleLine query line s) = snd (handleLine query line s').
Proof.
  intros H.
  assert (Hi : isInitialized s = isInitialized s')
    by (unfold core in H; congruence).
  unfold handleLine. destruct (isBlank line); [same_core|].
  unfold tryMessageLine. rewrite Hi.
  destruct (JSON_parse line) as [message|]; cbn [bind]; [|same_core].
  destruct (get message "id") as [id|] eqn:Hid; cbn [bind]; [|same_core].
  assert (Hres : exists result, get message "result" = Normal result)
    by (destruct message; simpl in Hid |- *; try discriminate; eauto).
  assert (Herr : exists error, get message "error" = Normal error)
    by (destruct message; simpl in Hid |- *; try discriminate; eauto).
  destruct Hres as [result ->]. destruct Herr as [error ->]. cbn [bind].
  destruct (strictEqNum id 1), (strictEqNum id 2), (truthy result),
    (isInitialized s'); cbn [bind andb negb];
    try same_core;
    try (destruct (parseMCPResponse line); same_core);
    (destruct (truthy error); [|same_core];
     destruct (get error "message"); cbn [bind]; same_core).
Qed.

Lemma handleLines_core (query : str) (lines : list str) :
  forall s s',
    core s = core s' ->
    core (handleLines query lines s) = core (handleLines query lines s').
Proof.
  induction lines as [|l rest IH]; intros s s' H; [exact H|].
  cbn [handleLines].
  destruct (@handleLine_core query l s s' H) as [Hc Hf].
  destruct (handleLine query l s) as [t f].
  destruct (handleLine query l s') as [t' f'].
  cbn [fst snd] in *. subst f'.
  destruct f; [apply IH; exact Hc|exact Hc].
Qed.

Lemma quiet_continues (query line : str) (s : Session) :
  quietLine line = true -> snd (handleLine query line s) = Continue.
Proof.
  unfold quietLine, carriesResult, errorOf. intros H.
  apply andb_prop in H. destruct H as [H2 He].
  apply negb_true_iff in H2.
  unfold handleLine. destruct (isBlank line); [reflexivity|].
  unfold tryMessageLine.
  destruct (JSON_parse line) as [message|]; cbn [bind]; [|reflexivity].
  destruct (get message "id") as [id|] eqn:Hid; cbn [bind]; [|reflexivity].
  assert (Hres : exists result, get message "result" = Normal result)
    by (destruct message; simpl in Hid |- *; try discriminate; eauto).
  assert (Herr : exists error, get message "error" = Normal error)
    by (destruct message; simpl in Hid |- *; try discriminate; eauto).
  destruct Hres as [result Hres]. destruct Herr as [error Herr].
  rewrite Hres, Herr in *. cbn [bind].
  destruct (strictEqNum id 1), (strictEqNum id 2), (truthy result),
    (isInitialized s), (truthy error);
    cbn [bind andb negb] in *; try reflexivity; discriminate.
Qed.

Lemma handleLines_app_quiet (query : str) (quiet rest : list str) :
  forallb quietLine quiet = true ->
  forall s,
    handleLines query (quiet ++ rest) s =
    handleLines query rest (handleLines query quiet s).
Proof.
  induction quiet as [|l quiet IH]; intros H s; [reflexivity|].
  cbn [forallb] in H. apply andb_prop in H. destruct H as [Hl Hq].
  cbn [app handleLines].
  pose proof (@quiet_continues query l s Hl) as Hc.
  destruct (handleLine query l s) as [t f]. cbn [snd] in Hc. subst f.
  apply IH. exact Hq.
Qed.

Lemma forallb_removelast {A : Type} (f : A -> bool) (l : list A) :
  forallb f l = true -> forallb f (removelast l) = true.
Proof.
  induction l as [|x [|y l] IH]; intros H; try reflexivity.
  cbn [forallb] in H. apply andb_prop in H. destruct H as [Hx Hl].
  change (removelast (x :: y :: l)) with (x :: removelast (y :: l)).
  cbn [forallb]. rewrite Hx. apply IH. exact Hl.
Qed.

Lemma run_snoc (host : Host) (query : str) (events : list Event) (e : Event) :
  run host query (events ++ [e]) = step host query (run host query events) e.
Proof. unfold run, runFrom. rewrite fold_left_app. reflexivity. Qed.

Lemma stdout_lines_in_order (host : Host) (query : str) (events : list Event) :
  forallb isStdoutData events = true ->
  forallb quietLine (removelast (framedLines (run host query events))) = true ->
  core (run host query events) =
  core (handleLines query (framedLines (run host query events)) start).
Proof.
  induction events as [|e events IH] using rev_ind; intros Hev Hq.
  - reflexivity.
  - rewrite forallb_app in Hev. apply andb_prop in Hev.
    destruct Hev as [Hev He].
    destruct e as [data| | | |]; try discriminate He. clear He.
    rewrite run_snoc in *. set (s := run host query events) in *.
    pose proof (f_equal snd (step_buffers host query s (StdoutData data)))
      as Hf.
    unfold buffers in Hf. cbn [snd] in Hf. rewrite Hf in *.
    cbn [step]. unfold onStdoutData.
    destruct (frame (responseData s) data) as [new buffer].
    cbn [fst] in *.
    destruct new as [|n new'].
    + rewrite app_nil_r in *. cbn [handleLines]. exact (IH Hev Hq).
    + assert (Hnew : n :: new' <> []) by discriminate.
      rewrite (@removelast_app _ (framedLines s) (n :: new') Hnew) in Hq.
      rewrite forallb_app in Hq. apply andb_prop in Hq.
      destruct Hq as [Hqf Hqn].
      rewrite (@handleLines_app_quiet query (framedLines s) (n :: new') Hqf).
      apply handleLines_core.
      apply (IH Hev). apply forallb_removelast. exact Hqf.
Qed.


(** *** The whole exchange *)

Lemma handleLine_handshake (query line : str) (s : Session) :
  isInitialized s = false ->
  carriesResult 1 line = true ->
  handleLine query line s =
    (emit (StdinWrite (searchRequest query))
       (emit (StdinWrite initializedNotification) (setIsInitialized s)),
     Continue).
Proof.
  intros Hi Hc.
  destruct (carriesResult_inv 1 line Hc)
    as (message & id & result & Hm & Hid & Hres & H1 & Ht).
  unfold handleLine.
  rewrite (JSON_parse_not_blank line Hm).
  unfold tryMessageLine. rewrite Hm. cbn [bind].
  rewrite Hid. cbn [bind]. rewrite H1, Hres. cbn [bind].
  rewrite Ht, Hi. reflexivity.
Qed.

(** *** Kills and settlements *)




(** *** Facts for the session properties *)





(** Every id-2 result resolves: the parse never throws. *)
Lemma handleLine_resolves (query line : str) (s : Session) :
  carriesResult 2 line = true ->
  exists rs,
    parseMCPResponse line = Normal rs /\
    handleLine query line s =
      (emit (Resolve rs)
         (emit Kill (clearTimeout (setHasReceivedResponse s))),
       Return).
Proof.
  intros Hc.
  destruct (carriesResult_inv 2 line Hc)
    as (message & id & result & Hm & Hid & Hres & H2 & Ht).
  destruct (parseMCPResponse_normal line) as [rs Hrs].
  exists rs. split; [exact Hrs|].
  unfold handleLine. rewrite (JSON_parse_not_blank line Hm).
  unfold tryMessageLine. rewrite Hm. cbn [bind].
  rewrite Hid. cbn [bind].
  rewrite (strictEqNum_2_not_1 id H2), H2, Hres. cbn [bind].
  rewrite Ht, Hrs. reflexivity.
Qed.

Lemma nth_error_firstn_lt (A : Type) (n k : nat) (l : list A) :
  k < n -> nth_error (firstn n l) k = nth_error l k.
Proof.
  revert k l. induction n as [|n IH]; intros k l Hk; [lia|].
  destruct l as [|x l]; [reflexivity|].
  destruct k as [|k]; [reflexivity|].
  cbn [firstn nth_error]. apply IH. lia.
Qed.

(** The stdout handler resolves at the first id-2 result of a chunk that no
    error message precedes. *)
Lemma onStdoutData_resolves (query data : str) (before after : list str)
  (line : str) (s : Session) :
  fst (frame (responseData s) data) = before ++ line :: after ->
  forallb quietLine before = true ->
  carriesResult 2 line = true ->
  exists pre rs,
    parseMCPResponse line = Normal rs /\
    effects (onStdoutData query data s) =
      effects s ++ pre ++ [ClearTimeout; Kill; Resolve rs].
Proof.
  intros Hf Hq Hc. unfold onStdoutData.
  destruct (frame (responseData s) data) as [lines buffer].
  cbn [fst] in Hf. subst lines.
  rewrite (@handleLines_app_quiet query before (line :: after) Hq _).
  set (s0 := setResponseData buffer (before ++ line :: after) s).
  assert (Hg : Grows s0 (handleLines query before s0)).
  { apply handleLines_invariant with (P := fun t => Grows s0 t).
    - intros l t out _ Ht Hl.
      eapply grows_trans; [exact Ht|]. eapply lineStep_grows. exact Hl.
    - apply grows_refl. }
  destruct Hg as [pre Hpre].
  destruct (@handleLine_resolves query line (handleLines query before s0) Hc)
    as (rs & Hrs & Hh).
  exists pre, rs. split; [exact Hrs|].
  cbn [handleLines]. rewrite Hh. log_simpl. rewrite Hpre.
  rewrite <- !app_assoc. reflexivity.
Qed.

End MoreFacts.

(* ================================================================== *)
(** ** The properties of the specification *)
(* ================================================================== *)

Import StringFacts JsonFacts SessionFacts ParserFacts MoreFacts.

(** C5 -- Framing is lossless and slice-independent.  Whatever the events of a
    session are, the text of all stdout chunks put together and split on the
    line feed is the sequence of the lines the framing step has handed to the
    loop, followed by the buffer it retains; so two ways of slicing the same
    text into chunks (and of interleaving them with other events) frame the
    same lines and retain the same buffer. *)
Theorem C5_framing_lossless (host : Host) (query : str) (events : list Event) :
  split [LF] (stdoutText events) =
    framedLines (run host query events)
      ++ [responseData (run host query events)]
  /\
  forall events' : list Event,
    stdoutText events' = stdoutText events ->
    framedLines (run host query events') = framedLines (run host query events)
    /\ responseData (run host query events')
       = responseData (run host query events).
Proof.
  split.
  - symmetry. apply run_framing.
  - intros events' Heq.
    pose proof (run_framing host query events) as H.
    pose proof (run_framing host query events') as H'.
    rewrite Heq, <- H in H'.
    apply app_inj_tail in H'. exact H'.
Qed.




(** C10 -- The handshake continuation runs at most once per session: after
    any events, however many id-1 results the process has sent, the
    initialized notification has been written at most once and the id-2
    tool-call request at most once. *)
Theorem C10_handshake_at_most_once (host : Host) (query : str)
  (events : list Event) :
  List.length (filter isInitializedNote (writes (run host query events))) <= 1
  /\
  List.length (filter isToolCall (writes (run host query events))) <= 1.
Proof.
  destruct (run_handshake host query events) as [[_ Hw]|[_ Hw]];
    rewrite Hw; split; vm_compute; lia.
Qed.




(** C1 (as stated) fails.  After the timer has rejected the promise, the exit
    notification of the killed process calls [reject] a second time; and after
    a tool-call response has resolved it, a second response line arriving in
    a later chunk kills and resolves again. *)
Lemma C1_counterexample :
  settles (run sampleHost sampleQuery [TimerFired]) = 1 /\
  settles (run sampleHost sampleQuery [TimerFired; Close None]) = 2 /\
  settles (run sampleHost sampleQuery
             [StdoutData (searchResponse ++ [LF])]) = 1 /\
  kills (run sampleHost sampleQuery
           [StdoutData (searchResponse ++ [LF])]) = 1 /\
  settles (run sampleHost sampleQuery
             [StdoutData (searchResponse ++ [LF]);
              StdoutData (searchResponse ++ [LF])]) = 2 /\
  kills (run sampleHost sampleQuery
           [StdoutData (searchResponse ++ [LF]);
            StdoutData (searchResponse ++ [LF])]) = 2.
Proof. vm_compute. repeat split; reflexivity. Qed.

(** C1 (amended) -- Once the outcome has settled, whichever way, no timer
    is pending, and process-exit notifications and timer firings, in any
    number and order, send no further [kill] and leave the state of the
    promise as it is; they also cause no further call to [resolve] or
    [reject] when the session settled by receiving a tool-call response
    ([hasReceivedResponse] is set). *)
Theorem C1_settled_once_exit_and_timer (host : Host) (query : str)
  (events later : list Event) :
  outcome (run host query events) <> None ->
  forallb isExitOrTimer later = true ->
  responseTimeout (run host query events) = None /\
  kills (runFrom host query (run host query events) later)
    = kills (run host query events) /\
  outcome (runFrom host query (run host query events) later)
    = outcome (run host query events) /\
  (hasReceivedResponse (run host query events) = true ->
   settles (runFrom host query (run host query events) later)
     = settles (run host query events)).
Proof.
  intros Ho Hev.
  pose proof (run_cleared host query events Ho) as Ht.
  split; [exact Ht|]. split; [|split].
  - apply exits_and_timers_kill_nothing; assumption.
  - destruct (outcome (run host query events)) as [o|] eqn:E; [|congruence].
    eapply outcome_kept; [apply runFrom_grows|exact E].
  - intros Hr. apply exits_and_timers_settle_nothing; assumption.
Qed.

(** The session that has resolved with one record then sees the process
    exit, the timer, and a second exit notification. *)
Lemma C1_settled_once_exit_and_timer_witness :
  outcome (run sampleHost sampleQuery [StdoutData (searchResponse ++ [LF])])
    <> None /\
  kills (runFrom sampleHost sampleQuery
           (run sampleHost sampleQuery [StdoutData (searchResponse ++ [LF])])
           [Close None; TimerFired; Close (Some 0%Z)]) = 1.
Proof.
  split.
  - vm_compute. discriminate.
  - refine (proj1 (proj2 (@C1_settled_once_exit_and_timer
                            sampleHost sampleQuery
                            [StdoutData (searchResponse ++ [LF])]
                            [Close None; TimerFired; Close (Some 0%Z)]
                            _ _))).
    + vm_compute. discriminate.
    + reflexivity.
Defined.

(** C2 (as stated) fails.  The process exits with code 1 while the buffer
    holds a complete, parseable response whose line feed has not arrived: the
    promise is rejected with the process-failure error, the buffer is not
    parsed. *)
Lemma C2_counterexample :
  outcome (run sampleHost sampleQuery [StdoutData searchResponse]) = None /\
  parseMCPResponse
    (responseData (run sampleHost sampleQuery [StdoutData searchResponse]))
    = Normal [fixCrash] /\
  outcome (run sampleHost sampleQuery
             [StdoutData searchResponse; Close (Some 1%Z)])
    = Some (Rejected (processFailure sampleHost (Some 1%Z) [])).
Proof. vm_compute. repeat split; reflexivity. Qed.

(** C2 (amended) -- If the process exits while the session is unsettled: with
    an exit code other than 0 (a number, or [null] after a signal) the
    controller clears the timer and rejects at once with the process-failure
    error, whose message holds the exit code and the stderr text captured so
    far, and the buffered output is not parsed; with exit code 0 it clears the
    timer, parses the buffered output with [parseMCPResponse], which always
    returns, and resolves with the records found. *)
Theorem C2_exit_before_response (host : Host) (query : str)
  (events : list Event) (code : option Z) :
  outcome (run host query events) = None ->
  (nonZero code = true ->
     effects (step host query (run host query events) (Close code)) =
       effects (run host query events)
         ++ [ClearTimeout;
             Reject (processFailure host code
                       (errorData (run host query events)))]
     /\ In (Interp (codeValue code))
           (message (processFailure host code
                       (errorData (run host query events))))
     /\ In (Text (errorData (run host query events)))
           (message (processFailure host code
                       (errorData (run host query events)))))
  /\
  (nonZero code = false ->
     exists rs,
       parseMCPResponse (responseData (run host query events)) = Normal rs /\
       effects (step host query (run host query events) (Close code)) =
         effects (run host query events) ++ [ClearTimeout; Resolve rs]).
Proof.
  intros Ho.
  destruct (run_pending host query events Ho) as (_ & _ & Hr).
  set (s := run host query events) in *.
  cbn [step]. unfold onClose. cbn [hasReceivedResponse clearTimeout].
  rewrite Hr. cbn [negb]. unfold nonZero.
  split; intros Hc.
  - rewrite Hc. split; [|split].
    + log_simpl. rewrite <- app_assoc. reflexivity.
    + unfold processFailure. cbn [message]. right. left. reflexivity.
    + unfold processFailure. cbn [message]. do 3 right. left. reflexivity.
  - rewrite Hc.
    destruct (parseMCPResponse_normal (responseData s)) as [rs Hrs].
    exists rs. split; [exact Hrs|].
    log_simpl. rewrite Hrs. log_simpl.
    rewrite <- app_assoc. reflexivity.
Qed.

(** The process exits with code 1 after writing to stderr only. *)
Lemma C2_exit_before_response_witness :
  outcome (run sampleHost sampleQuery [StderrData (js "no database")]) = None
  /\
  effects (step sampleHost sampleQuery
             (run sampleHost sampleQuery [StderrData (js "no database")])
             (Close (Some 1%Z)))
  = [StdinWrite initializeRequest; ClearTimeout;
     Reject (processFailure sampleHost (Some 1%Z) (js "no database"))].
Proof.
  split.
  - vm_compute. reflexivity.
  - apply (@C2_exit_before_response sampleHost sampleQuery
             [StderrData (js "no database")] (Some 1%Z)).
    + vm_compute. reflexivity.
    + reflexivity.
Defined.

(** C3 (a defect of the code) -- A tool-call response whose payload cannot
    be read is resolved with no records instead of being rejected.  For a
    payload text that is not a string, and for an error carried beside a
    result without content, the block of [parseMCPResponse] throws (a
    TypeError, and the error [MCP server error: ...] that the function
    itself raises), its own [catch] passes the line over, the function
    returns the empty list and the handler resolves with it.  So for every
    id-2 result the parse returns and the handler resolves, in the
    iteration that decodes it and in the data event of any session whose
    chunk brings it with no error message before it: the [reject] with
    [Failed to parse MCP response] is never reached. *)
Theorem C3_parse_failure_is_swallowed :
  (carriesResult 2 objectTextResponse = true /\
   tryResponseLine objectTextResponse = Throw typeError /\
   parseMCPResponse objectTextResponse = Normal [] /\
   effects (run sampleHost sampleQuery
              [StdoutData (objectTextResponse ++ [LF])])
     = [StdinWrite initializeRequest; ClearTimeout; Kill; Resolve []])
  /\
  (carriesResult 2 errorResultResponse = true /\
   tryResponseLine errorResultResponse
     = Throw (mkError [Text (js "MCP server error: ");
                       Interp (JStr (js "index is locked"))]) /\
   parseMCPResponse errorResultResponse = Normal [] /\
   effects (run sampleHost sampleQuery
              [StdoutData (errorResultResponse ++ [LF])])
     = [StdinWrite initializeRequest; ClearTimeout; Kill; Resolve []])
  /\
  (forall (query line : str) (s : Session),
      carriesResult 2 line = true ->
      exists rs,
        parseMCPResponse line = Normal rs /\
        handleLine query line s =
          (emit (Resolve rs)
             (emit Kill (clearTimeout (setHasReceivedResponse s))),
           Return))
  /\
  (forall (host : Host) (query : str) (events : list Event) (data : str)
          (before after : list str) (line : str),
      fst (frame (responseData (run host query events)) data)
        = before ++ line :: after ->
      forallb quietLine before = true ->
      carriesResult 2 line = true ->
      exists pre rs,
        parseMCPResponse line = Normal rs /\
        effects (step host query (run host query events) (StdoutData data))
          = effects (run host query events)
              ++ pre ++ [ClearTimeout; Kill; Resolve rs]).
Proof.
  split; [|split; [|split]].
  - vm_compute. repeat split; reflexivity.
  - vm_compute. repeat split; reflexivity.
  - intros query line s Hc. apply handleLine_resolves. exact Hc.
  - intros host query events data before after line Hf Hq Hc.
    cbn [step]. eapply onStdoutData_resolves; eassumption.
Qed.

(** C6 (as stated) fails.  Three hyphens inside a title cut the block in two,
    and neither half is a record; a line of four hyphens cuts too, and the
    field line after it is lost.  In both payloads no line consists of three
    hyphens, so the reading by lines takes each as one block. *)
Lemma C6_counterexample :
  resultsAtDashLines (jsq "## a---b|- URL: u")
    = [mkResult (js "a---b") (js "u") [] (js "issue") (js "open") [] []] /\
  parseSearchResults (jsq "## a---b|- URL: u") = [] /\
  resultsAtDashLines (jsq "## a|- URL: u|----|- Author: me")
    = [mkResult (js "a") (js "u") [] (js "issue") (js "open") (js "me") []] /\
  parseSearchResults (jsq "## a|- URL: u|----|- Author: me")
    = [mkResult (js "a") (js "u") [] (js "issue") (js "open") [] []].
Proof. vm_compute. repeat split; reflexivity. Qed.

(** C6 (amended) -- [parseSearchResults] cuts the payload at every occurrence
    of the text of three hyphens, scanning from the left, wherever it stands:
    when the first three hyphens in a row of [a ++ "---" ++ b] are the ones
    written between [a] and [b], the first block is [a] and the rest of the
    payload is cut in the same way, whether or not the hyphens are a line of
    their own.  The blocks joined by three hyphens give the payload back. *)
Theorem C6_blocks_cut_at_three_hyphens (a b : str) :
  includes dashes (a ++ js "--") = false ->
  split dashes (a ++ dashes ++ b) = a :: split dashes b /\
  parseSearchResults (a ++ dashes ++ b) =
    firstn 20 (accepted a ++ flat_map accepted (sectionsOf b)) /\
  join dashes (split dashes (a ++ dashes ++ b)) = a ++ dashes ++ b.
Proof.
  intros H. split; [|split].
  - apply split_at_dashes. exact H.
  - rewrite parseSearchResults_eq, (accepted_sectionsOf_cut a b H).
    reflexivity.
  - apply join_split. discriminate.
Qed.

(** The title [a---b]: the cut falls inside the heading line. *)
Lemma C6_blocks_cut_at_three_hyphens_witness :
  includes dashes (js "## a" ++ js "--") = false /\
  split dashes (js "## a" ++ dashes ++ jsq "b|- URL: u")
    = [js "## a"; jsq "b|- URL: u"].
Proof.
  split.
  - vm_compute. reflexivity.
  - apply (@C6_blocks_cut_at_three_hyphens (js "## a") (jsq "b|- URL: u")).
    vm_compute. reflexivity.
Defined.

(** C7 (as stated) fails.  In a payload of 21 blocks that each have a
    heading and a URL line, the 21st block yields a non-empty title and a
    non-empty URL, and the output holds the records of the first 20 blocks
    only: none is emitted for the 21st. *)
Lemma C7_counterexample :
  nth_error (nonBlankPieces (goodBlocks 21)) 20 = Some (LF :: goodBlock 20) /\
  headingTitle (LF :: goodBlock 20) = Some (repeat 97%N 21) /\
  fieldValue "URL" (LF :: goodBlock 20) = Some (js "u") /\
  parseSection (LF :: goodBlock 20) = Some (goodRecord 20) /\
  parseSearchResults (goodBlocks 21) = map goodRecord (seq 0 20) /\
  ~ In (goodRecord 20) (parseSearchResults (goodBlocks 21)).
Proof.
  split; [vm_compute; reflexivity|].
  split; [vm_compute; reflexivity|].
  split; [vm_compute; reflexivity|].
  split; [vm_compute; reflexivity|].
  assert (H : parseSearchResults (goodBlocks 21) = map goodRecord (seq 0 20))
    by (vm_compute; reflexivity).
  split; [exact H|].
  rewrite H. intros Hin. apply in_map_iff in Hin.
  destruct Hin as (i & Heq & Hi). apply in_seq in Hi.
  apply (f_equal (fun r => List.length (title r))) in Heq.
  unfold goodRecord in Heq. cbn [title] in Heq.
  rewrite !repeat_length in Heq. lia.
Qed.

(** C7 (amended) -- Record acceptance and defaults, within the cap.  The
    output is the first 20 of the records that the non-blank pieces between
    three-hyphen separators give, in order.  A block gives a record exactly
    when its heading line yields a non-empty title and one of its later
    lines a non-empty URL field; that record is emitted, at the place its
    block has among the accepted blocks, exactly when fewer than 20 accepted
    blocks come before it.  The record holds that title and URL, and for
    each other field the value of the block's last line for it, or else the
    default (empty, [issue] for the type, [open] for the state).  A line
    that is no field line leaves the record as it is. *)
Theorem C7_acceptance_within_cap (content : str) :
  parseSearchResults content
    = firstn 20 (flat_map accepted (nonBlankPieces content))
  /\
  (forall before block after,
      nonBlankPieces content = before ++ block :: after ->
      ((exists r,
           parseSection block = Some r /\
           nth_error (parseSearchResults content)
                     (List.length (flat_map accepted before)) = Some r)
       <->
       (List.length (flat_map accepted before) < 20 /\
        exists t u,
          headingTitle block = Some t /\ t <> [] /\
          fieldValue "URL" block = Some u /\ u <> [])))
  /\
  (forall block,
      (exists r, parseSection block = Some r) <->
      (exists t u,
          headingTitle block = Some t /\ t <> [] /\
          fieldValue "URL" block = Some u /\ u <> []))
  /\
  (forall block r,
      parseSection block = Some r ->
      headingTitle block = Some (title r) /\
      fieldValue "URL" block = Some (url r) /\
      repository r = orDefault [] (fieldValue "Repository" block) /\
      type r = orDefault (js "issue") (fieldValue "Type" block) /\
      state r = orDefault (js "open") (fieldValue "State" block) /\
      author r = orDefault [] (fieldValue "Author" block) /\
      created_at r = orDefault [] (fieldValue "Created at" block))
  /\
  (forall r before line after,
      noFieldLine line = true ->
      fold_left scanLine (before ++ line :: after) r
        = fold_left scanLine (before ++ after) r).
Proof.
  assert (Heq : parseSearchResults content
                = firstn 20 (flat_map accepted (nonBlankPieces content)))
    by apply parseSearchResults_eq.
  assert (Hacc : forall block,
             (exists r, parseSection block = Some r) <->
             (exists t u,
                 headingTitle block = Some t /\ t <> [] /\
                 fieldValue "URL" block = Some u /\ u <> [])).
  { intros block. split.
    - intros [r Hr]. apply parseSection_spec in Hr.
      destruct Hr as (t & u & Ht & Hne & Hu & Hue & _).
      exists t, u. auto.
    - intros (t & u & Ht & Hne & Hu & Hue).
      eexists. apply parseSection_spec.
      exists t, u. repeat split; eauto. }
  split; [exact Heq|].
  split; [|split; [exact Hacc|split]].
  - intros before block after Hsplit.
    rewrite Heq, Hsplit, flat_map_app. cbn [flat_map].
    set (k := List.length (flat_map accepted before)).
    split.
    + intros (r & Hr & Hn). split.
      * assert (Hlt : k < List.length
                            (firstn 20 (flat_map accepted before ++
                                        accepted block ++
                                        flat_map accepted after))).
        { apply nth_error_Some. rewrite Hn. discriminate. }
        pose proof (firstn_le_length 20
                      (flat_map accepted before ++ accepted block ++
                       flat_map accepted after)).
        lia.
      * apply Hacc. exists r. exact Hr.
    + intros [Hk Hex]. apply Hacc in Hex. destruct Hex as [r Hr].
      exists r. split; [exact Hr|].
      rewrite nth_error_firstn_lt by exact Hk.
      unfold accepted at 2. rewrite Hr.
      rewrite nth_error_app2 by (unfold k; lia).
      unfold k. rewrite Nat.sub_diag. reflexivity.
  - intros block r Hr. apply parseSection_spec in Hr.
    destruct Hr as (t & u & Ht & Hne & Hu & Hue & ->).
    cbn [title url repository type state author created_at].
    repeat split; assumption.
  - intros r before line after Hno.
    rewrite !fold_left_app. cbn [fold_left].
    rewrite (scanLine_noField _ line Hno). reflexivity.
Qed.

(** C8 -- Bounded, ordered, repeatable output.  The output never has more
    than 20 records and is the first 20 (or fewer) of the accepted records;
    its records are those of blocks taken in the order of the blocks, which
    are pieces of the payload in the order of the payload; and any two
    applications to the same payload give the same list. *)
Theorem C8_bounded_ordered_repeatable (content : str) :
  List.length (parseSearchResults content) <= 20 /\
  parseSearchResults content
    = firstn 20 (flat_map accepted (sectionsOf content)) /\
  Subsequence (map Some (parseSearchResults content))
              (map parseSection (sectionsOf content)) /\
  Subsequence (sectionsOf content) (split dashes content) /\
  join dashes (split dashes content) = content /\
  (forall first second,
      first = parseSearchResults content ->
      second = parseSearchResults content ->
      first = second).
Proof.
  split; [|split; [|split; [|split; [|split]]]].
  - unfold parseSearchResults. apply firstn_le_length.
  - apply parseSearchResults_eq.
  - rewrite parseSearchResults_eq. apply subsequence_accepted.
  - apply subsequence_filter.
  - apply join_split. discriminate.
  - intros first second -> ->. reflexivity.
Qed.

(** The payload of the specification's example parses to two records, the
    second with its missing fields defaulted. *)
Example spec_example_payload :
  parseSearchResults
    (jsq "## Fix crash on startup|- URL: https://github.com/org/repo/issues/1|- Repository: org/repo|- Type: issue|- State: open|- Author: alice|- Created at: 2024-01-01|---|## Add dark mode|- URL: https://github.com/org/repo/pull/2|- Type: pull_request|- State: merged|")
  = [mkResult (js "Fix crash on startup")
       (js "https://github.com/org/repo/issues/1") (js "org/repo")
       (js "issue") (js "open") (js "alice") (js "2024-01-01");
     mkResult (js "Add dark mode") (js "https://github.com/org/repo/pull/2")
       [] (js "pull_request") (js "merged") [] []].
Proof. vm_compute. reflexivity. Qed.

(** An empty or blank query resolves at once, with no process. *)
Example blank_query_spawns_nothing :
  callMCPSearch (js "   ") = Immediate [] /\ callMCPSearch [] = Immediate [].
Proof. vm_compute. split; reflexivity. Qed.

(* ================================================================== *)
(** ** Further properties of the code *)
(* ================================================================== *)

Import Regex.

(** X1 -- [getIconAndColor] gives each of the six listed pairs of type and
    state its icon and colour, and gives every other pair, whatever the two
    strings are, the neutral [Circle] in [SecondaryText]; a record whose
    block has no Type and no State line is shown as an open issue. *)
Theorem getIconAndColor_table :
  getIconAndColor (js "issue") (js "open") = (Circle, Green) /\
  getIconAndColor (js "issue") (js "closed") = (Circle, Purple) /\
  getIconAndColor (js "pull_request") (js "open") = (Code, Green) /\
  getIconAndColor (js "pull_request") (js "closed") = (Code, Red) /\
  getIconAndColor (js "pull_request") (js "merged") = (CheckCircle, Purple) /\
  getIconAndColor (js "discussion") (js "open") = (SpeechBubble, Green) /\
  (forall type state,
      ~ In (type, state) listedPairs ->
      getIconAndColor type state = (Circle, SecondaryText)) /\
  (forall block r,
      parseSection block = Some r ->
      fieldValue "Type" block = None ->
      fieldValue "State" block = None ->
      getIconAndColor (type r) (state r) = (Circle, Green)).
Proof.
  repeat (split; [vm_compute; reflexivity|]).
  split.
  - intros type state Hnot. unfold getIconAndColor. cbv zeta.
    destruct (eqb_str _ (js "issue:open")) eqn:E;
      [exfalso; apply Hnot;
       rewrite (@key_is_pair type state (js "issue") (js "open")
                  eq_refl eq_refl E); simpl; tauto|clear E].
    destruct (eqb_str _ (js "issue:closed")) eqn:E;
      [exfalso; apply Hnot;
       rewrite (@key_is_pair type state (js "issue") (js "closed")
                  eq_refl eq_refl E); simpl; tauto|clear E].
    destruct (eqb_str _ (js "pull_request:open")) eqn:E;
      [exfalso; apply Hnot;
       rewrite (@key_is_pair type state (js "pull_request") (js "open")
                  eq_refl eq_refl E); simpl; tauto|clear E].
    destruct (eqb_str _ (js "pull_request:closed")) eqn:E;
      [exfalso; apply Hnot;
       rewrite (@key_is_pair type state (js "pull_request") (js "closed")
                  eq_refl eq_refl E); simpl; tauto|clear E].
    destruct (eqb_str _ (js "pull_request:merged")) eqn:E;
      [exfalso; apply Hnot;
       rewrite (@key_is_pair type state (js "pull_request") (js "merged")
                  eq_refl eq_refl E); simpl; tauto|clear E].
    destruct (eqb_str _ (js "discussion:open")) eqn:E;
      [exfalso; apply Hnot;
       rewrite (@key_is_pair type state (js "discussion") (js "open")
                  eq_refl eq_refl E); simpl; tauto|clear E].
    reflexivity.
  - intros block r Hr Ht Hs.
    apply parseSection_spec in Hr.
    destruct Hr as (t & u & _ & _ & _ & _ & ->).
    cbn [type state]. rewrite Ht, Hs. vm_compute. reflexivity.
Qed.

(** X2 -- [callMCPSearch] answers a query made of white space only (the empty
    query too) at once with the empty list and spawns no process; every
    other query starts a session. *)
Theorem callMCPSearch_blank_query (query : str) :
  (forallb isSpace query = true -> callMCPSearch query = Immediate []) /\
  (forallb isSpace query = false -> callMCPSearch query = Spawned start).
Proof.
  unfold callMCPSearch. split; intros H.
  - rewrite (spaces_isBlank query H). reflexivity.
  - destruct (isBlank query) eqn:E; [|reflexivity].
    apply isBlank_spaces in E. congruence.
Qed.

(** X3 -- [expandPath] leaves a path that does not start with [~/] as it is
    (a lone [~] and [~user/...] included); it also leaves a [~/] path as it
    is when HOME is unset or empty; otherwise, HOME holding no dollar sign,
    it puts HOME in place of the leading tilde and of no other tilde. *)
Theorem expandPath_cases (host : Host) :
  (forall path, startsWith (js "~/") path = false ->
                expandPath host path = path) /\
  (forall rest, HOME host = None \/ HOME host = Some [] ->
                expandPath host (js "~/" ++ rest) = js "~/" ++ rest) /\
  (forall home rest,
      HOME host = Some home -> home <> [] -> hasChar 36%N home = false ->
      expandPath host (js "~/" ++ rest) = home ++ js "/" ++ rest).
Proof.
  split; [|split].
  - intros path H. unfold expandPath. rewrite H. reflexivity.
  - intros rest H. unfold expandPath.
    change (startsWith (js "~/") (js "~/" ++ rest)) with true. cbv iota.
    destruct H as [-> | ->]; reflexivity.
  - intros home rest Hh Hne Hd. unfold expandPath.
    change (startsWith (js "~/") (js "~/" ++ rest)) with true. cbv iota.
    rewrite Hh. destruct home as [|c home']; [congruence|].
    cbn [isEmpty]. rewrite substitution_plain by exact Hd. reflexivity.
Qed.

(** X4 -- The buffer the stdout handler keeps never holds a line feed, and
    neither does any line it hands to the loop, whatever the events. *)
Theorem buffer_holds_no_line_feed (host : Host) (query : str)
  (events : list Event) :
  hasChar LF (responseData (run host query events)) = false /\
  Forall (fun line => hasChar LF line = false)
         (framedLines (run host query events)).
Proof.
  pose proof (split_pieces_no_LF (stdoutText events)) as H.
  rewrite <- (run_framing host query events) in H.
  apply Forall_app in H. destruct H as [Hl Hb].
  split; [|exact Hl]. inversion Hb; assumption.
Qed.

(** X5 -- [errorData] is all the stderr text received so far, in order of
    arrival, whatever else happened in between; when an unsettled session
    sees the process exit with a code other than 0, the promise is rejected
    with the process-failure error built from that code and that text. *)
Theorem stderr_is_kept_for_the_failure (host : Host) (query : str)
  (events : list Event) :
  errorData (run host query events) = stderrText events /\
  (forall code,
      outcome (run host query events) = None ->
      nonZero code = true ->
      outcome (step host query (run host query events) (Close code)) =
      Some (Rejected (processFailure host code (stderrText events)))).
Proof.
  assert (He : errorData (run host query events) = stderrText events)
    by apply (runFrom_errorData host query events start).
  split; [exact He|].
  intros code Ho Hc.
  destruct (run_pending host query events Ho) as (_ & _ & Hr).
  cbn [step]. unfold onClose. cbn [hasReceivedResponse clearTimeout].
  rewrite Hr. cbn [negb]. unfold nonZero in Hc. rewrite Hc.
  unfold outcome in *. log_simpl. rewrite Ho, He. reflexivity.
Qed.





(** X8 -- Lines that are blank or are not JSON text are passed over where
    they stand: taking such a line out of the lines of a chunk, or putting
    one in, changes nothing of what the loop does. *)
Theorem noise_lines_are_skipped (query : str) (before after : list str)
  (noise : str) (s : Session) :
  noiseLine noise = true ->
  handleLines query (before ++ noise :: after) s =
  handleLines query (before ++ after) s.
Proof.
  intros Hn. revert s. induction before as [|l before IH]; intros s.
  - cbn [app handleLines]. rewrite (@handleLine_noise query noise s Hn).
    reflexivity.
  - cbn [app handleLines].
    destruct (handleLine query l s) as [s' [|]]; [apply IH|reflexivity].
Qed.

(** A log line of the server between the two responses. *)
Lemma noise_lines_are_skipped_witness :
  noiseLine (js "listening on stdio") = true /\
  handleLines sampleQuery
    ([initializeResponse] ++ js "listening on stdio" :: [searchResponse])
    start =
  handleLines sampleQuery ([initializeResponse] ++ [searchResponse]) start.
Proof.
  split.
  - vm_compute. reflexivity.
  - apply (@noise_lines_are_skipped sampleQuery [initializeResponse]
             [searchResponse] (js "listening on stdio") start).
    vm_compute. reflexivity.
Defined.

(** X9 -- A tool-call response is found whether or not it arrives in one
    piece, and it ends the handling of its chunk: when the buffer and the
    head of the data make up the response line, the handler clears the
    timer, kills once and resolves once with the records of the payload,
    and whatever follows the line in the same chunk (further responses,
    errors) is framed but never looked at. *)
Theorem response_ends_its_chunk (query head tail text : str) (s : Session) :
  hasChar LF (responseData s ++ head) = false ->
  carriesResult 2 (responseData s ++ head) = true ->
  payloadText (responseData s ++ head) = Some (JStr text) ->
  effects (onStdoutData query (head ++ LF :: tail) s) =
    effects s ++ [ClearTimeout; Kill; Resolve (parseSearchResults text)] /\
  responseData (onStdoutData query (head ++ LF :: tail) s) =
    last (split [LF] tail) [] /\
  hasReceivedResponse (onStdoutData query (head ++ LF :: tail) s) = true.
Proof.
  intros Hlf Hc Hp. unfold onStdoutData.
  rewrite (@frame_first_line (responseData s) head tail Hlf). cbn [handleLines].
  rewrite (@handleLine_response query (responseData s ++ head) text _
             Hlf Hc Hp).
  log_simpl. rewrite <- !app_assoc. repeat split.
Qed.

(** The response arrives cut in two, with an error message behind it. *)
Lemma response_ends_its_chunk_witness :
  effects (onStdoutData sampleQuery
             (skipn 20 searchResponse ++ LF ::
                jsq "{'jsonrpc':'2.0','id':3,'error':{'message':'late'}}|")
             (run sampleHost sampleQuery
                [StdoutData (firstn 20 searchResponse)])) =
  [StdinWrite initializeRequest; ClearTimeout; Kill; Resolve [fixCrash]].
Proof.
  refine (proj1 (@response_ends_its_chunk sampleQuery
                   (skipn 20 searchResponse)
                   (jsq "{'jsonrpc':'2.0','id':3,'error':{'message':'late'}}|")
                   (js "## Fix crash" ++ LF ::
                      js "- URL: https://github.com/org/repo/issues/1")
                   (run sampleHost sampleQuery
                      [StdoutData (firstn 20 searchResponse)])
                   _ _ _));
    vm_compute; reflexivity.
Defined.

(** X10 -- [parseMCPResponse] never throws.  It returns the records of the
    payload of the first line that has a truthy [result.content] whose first
    element's text is a string (or is missing); lines before it that are
    blank, are not JSON, carry an [error] or lack content are passed over;
    and when no line is of that kind it returns the empty list, error
    responses included. *)
Theorem parseMCPResponse_first_payload (responseData : str) :
  (exists rs, parseMCPResponse responseData = Normal rs) /\
  (forall skipped line rest text,
      split [LF] responseData = skipped ++ line :: rest ->
      Forall (fun l => recordsText l = None) skipped ->
      recordsText line = Some text ->
      parseMCPResponse responseData = Normal (parseSearchResults text)) /\
  (Forall (fun l => recordsText l = None) (split [LF] responseData) ->
   parseMCPResponse responseData = Normal []).
Proof.
  split; [apply parseMCPResponse_normal|]. split.
  - intros skipped line rest text Hsplit Hs Hl.
    unfold parseMCPResponse. rewrite Hsplit, filter_app. cbn [filter].
    rewrite (recordsText_not_blank line Hl). cbn [negb].
    apply parseResponseLines_first; [|exact Hl].
    apply Forall_filter. exact Hs.
  - intros Hs. unfold parseMCPResponse.
    apply parseResponseLines_none. apply Forall_filter. exact Hs.
Qed.

(** X11 -- Every record [parseSearchResults] returns has a non-empty title
    and a non-empty URL, and none of its seven fields holds a line
    terminator. *)
Theorem records_are_single_lined (content : str) (r : SearchResult) :
  In r (parseSearchResults content) ->
  title r <> [] /\ url r <> [] /\ singleLined r.
Proof.
  intros H. rewrite parseSearchResults_eq in H.
  apply in_firstn in H. apply in_flat_map in H.
  destruct H as (block & _ & Hr). unfold accepted in Hr.
  destruct (parseSection block) as [r'|] eqn:E; [|destruct Hr].
  destruct Hr as [<-|[]]. eapply parseSection_singleLined. exact E.
Qed.

(** The first record of the payload of the sample response. *)
Lemma records_are_single_lined_witness :
  In fixCrash
     (parseSearchResults
        (jsq "## Fix crash|- URL: https://github.com/org/repo/issues/1")) /\
  title fixCrash <> [].
Proof.
  split.
  - vm_compute. left. reflexivity.
  - refine (proj1 (@records_are_single_lined
                     (jsq "## Fix crash|- URL: https://github.com/org/repo/issues/1")
                     fixCrash _)).
    vm_compute. left. reflexivity.
Defined.

(** X12 -- A heading line and a field line are read with any amount of white
    space after [##], after the hyphen and after the colon, and the value is
    taken as it stands, inner and trailing white space included: for a plain
    value (not empty, no line terminator, not starting with white space) the
    heading yields it as the title and the field line of each of the six
    labels yields it as that field's value. *)
Theorem lines_yield_their_values (ws1 ws2 v : str) :
  forallb isSpace ws1 = true -> forallb isSpace ws2 = true ->
  plainValue v = true ->
  group1 titleRe (js "##" ++ ws1 ++ v) = Some v /\
  (forall label,
      In label labels ->
      group1 (fieldRe label)
             (js "-" ++ ws1 ++ js label ++ js ":" ++ ws2 ++ v) = Some v).
Proof.
  intros H1 H2 Hv. split.
  - apply titleRe_matches; assumption.
  - intros label Hl. apply fieldRe_matches; assumption.
Qed.

(** A URL line with no space after the hyphen and two after the colon. *)
Lemma lines_yield_their_values_witness :
  plainValue (js "https://github.com/org/repo/pull/2 ") = true /\
  group1 (fieldRe "URL")
         (js "-" ++ [] ++ js "URL" ++ js ":" ++ js "  "
             ++ js "https://github.com/org/repo/pull/2 ")
    = Some (js "https://github.com/org/repo/pull/2 ").
Proof.
  split; [reflexivity|].
  refine (proj2 (@lines_yield_their_values [] (js "  ")
                   (js "https://github.com/org/repo/pull/2 ") _ _ _)
                "URL"%string _);
    try reflexivity.
  left. reflexivity.
Defined.

(** X13 -- A block written in the layout of the format (the heading, then
    one line per field in the order URL, Repository, Type, State, Author,
    Created at), with plain values and white space or empty lines around
    it, is parsed to exactly the record it was written from. *)
Theorem block_layout_is_parsed_back (r : SearchResult) (pre post : str) :
  plainRecord r = true ->
  forallb isSpace pre = true -> forallb isSpace post = true ->
  parseSection (pre ++ blockOf r ++ post) = Some r.
Proof.
  intros Hr Hpre Hpost.
  rewrite (@parseSection_pad pre (blockOf r) post Hpre Hpost).
  unfold parseSection. rewrite (blockOf_lines r Hr).
  change (Nat.ltb (List.length (linesOf r)) 2) with false. cbv iota.
  change (hd [] (linesOf r)) with (js "##" ++ js " " ++ title r).
  assert (Ht : plainValue (title r) = true).
  { unfold plainRecord in Hr.
    repeat (apply andb_prop in Hr; destruct Hr as [Hr ?]). exact Hr. }
  rewrite (@titleRe_matches (js " ") (title r) eq_refl Ht).
  rewrite (scan_block_lines r Hr).
  destruct (plain_parts (title r) Ht) as (Hne & _ & _).
  assert (Hu : url r <> []).
  { unfold plainRecord in Hr.
    repeat (apply andb_prop in Hr; destruct Hr as [Hr ?]).
    destruct (plain_parts (url r)) as [Hu _]; assumption. }
  destruct (url r); [congruence|]. destruct (title r); [congruence|].
  reflexivity.
Qed.

(** A merged pull request, written with an empty line before and after. *)
Lemma block_layout_is_parsed_back_witness :
  plainRecord
    (mkResult (js "Add dark mode") (js "https://github.com/org/repo/pull/2")
       (js "org/repo") (js "pull_request") (js "merged") (js "bob")
       (js "2024-01-02")) = true /\
  parseSection
    ([LF] ++ blockOf
       (mkResult (js "Add dark mode") (js "https://github.com/org/repo/pull/2")
          (js "org/repo") (js "pull_request") (js "merged") (js "bob")
          (js "2024-01-02")) ++ [LF]) =
  Some (mkResult (js "Add dark mode") (js "https://github.com/org/repo/pull/2")
          (js "org/repo") (js "pull_request") (js "merged") (js "bob")
          (js "2024-01-02")).
Proof.
  split; [reflexivity|].
  apply (@block_layout_is_parsed_back
           (mkResult (js "Add dark mode")
              (js "https://github.com/org/repo/pull/2")
              (js "org/repo") (js "pull_request") (js "merged") (js "bob")
              (js "2024-01-02")) [LF] [LF]); reflexivity.
Defined.

(** X14 -- Blocks none of which holds three hyphens in a row, written one
    after the other with a line of three hyphens between them, are parsed
    block by block: the output is the first 20 of the records the blocks
    give, in their order. *)
Theorem dash_lines_separate_blocks (blocks : list str) :
  Forall (fun b => includes dashes b = false) blocks ->
  parseSearchResults (join dashLine blocks)
    = firstn 20 (flat_map accepted blocks).
Proof.
  intros H. rewrite parseSearchResults_eq.
  destruct blocks as [|b rest]; [reflexivity|].
  rewrite <- (@accepted_blocks rest b [] H eq_refl). reflexivity.
Qed.

(** The two blocks of the example payload. *)
Lemma dash_lines_separate_blocks_witness :
  parseSearchResults
    (join dashLine
       [jsq "## Fix crash|- URL: https://github.com/org/repo/issues/1";
        jsq "## Add dark mode|- URL: https://github.com/org/repo/pull/2|- State: merged"])
  = [fixCrash;
     mkResult (js "Add dark mode") (js "https://github.com/org/repo/pull/2")
       [] (js "issue") (js "merged") [] []].
Proof.
  apply (@dash_lines_separate_blocks
           [jsq "## Fix crash|- URL: https://github.com/org/repo/issues/1";
            jsq "## Add dark mode|- URL: https://github.com/org/repo/pull/2|- State: merged"]).
  repeat constructor.
Defined.

(** X15 -- How the stdout text is cut into chunks does not matter as long as
    nothing complete follows the line that settles: for stdout data only,
    when every line but the last complete one is neither an id-2 result nor
    an error message, the flags, the timer and the log of effects after the
    events are those of handing all the complete lines to the loop in one
    go. *)
Theorem chunking_does_not_matter (host : Host) (query : str)
  (events : list Event) :
  forallb isStdoutData events = true ->
  forallb quietLine
    (removelast (removelast (split [LF] (stdoutText events)))) = true ->
  core (run host query events) =
  core (handleLines query (removelast (split [LF] (stdoutText events)))
          start).
Proof.
  intros Hev Hq. rewrite <- (run_framedLines host query) in *.
  apply stdout_lines_in_order; assumption.
Qed.

(** The two responses arrive in three chunks cut in the middle of lines. *)
Lemma chunking_does_not_matter_witness :
  effects
    (run sampleHost sampleQuery
       [StdoutData (firstn 30 (initializeResponse ++ [LF]));
        StdoutData (skipn 30 (initializeResponse ++ [LF])
                      ++ firstn 50 searchResponse);
        StdoutData (skipn 50 searchResponse ++ [LF])])
  = effects (handleLines sampleQuery [initializeResponse; searchResponse]
               start).
Proof.
  refine (f_equal snd
            (@chunking_does_not_matter sampleHost sampleQuery
               [StdoutData (firstn 30 (initializeResponse ++ [LF]));
                StdoutData (skipn 30 (initializeResponse ++ [LF])
                              ++ firstn 50 searchResponse);
                StdoutData (skipn 50 searchResponse ++ [LF])] _ _));
    vm_compute; reflexivity.
Defined.

(** X16 -- The whole exchange.  When the stdout data of a session, cut into
    chunks in any way, adds up to an initialize result on one line and a
    tool-call response on the next, the session writes the initialize
    request, the initialized notification and the tool-call request, then
    clears the timer, kills the process once and resolves with the records
    of the response's payload; nothing else happens. *)
Theorem exchange_resolves (host : Host) (query : str) (events : list Event)
  (initLine respLine text : str) :
  forallb isStdoutData events = true ->
  stdoutText events = initLine ++ LF :: respLine ++ [LF] ->
  hasChar LF initLine = false -> hasChar LF respLine = false ->
  carriesResult 1 initLine = true -> quietLine initLine = true ->
  carriesResult 2 respLine = true ->
  payloadText respLine = Some (JStr text) ->
  effects (run host query events) =
    [StdinWrite initializeRequest; StdinWrite initializedNotification;
     StdinWrite (searchRequest query); ClearTimeout; Kill;
     Resolve (parseSearchResults text)] /\
  outcome (run host query events)
    = Some (Fulfilled (parseSearchResults text)).
Proof.
  intros Hev Htext Hi Hr Hc1 Hq Hc2 Hp.
  assert (Hlines : removelast (split [LF] (stdoutText events))
                   = [initLine; respLine]).
  { rewrite Htext.
    rewrite (@split_first_line initLine (respLine ++ [LF]) Hi).
    change (respLine ++ [LF]) with (respLine ++ LF :: []).
    rewrite (@split_first_line respLine [] Hr). reflexivity. }
  assert (Hcore : core (run host query events) =
                  core (handleLines query [initLine; respLine] start)).
  { rewrite <- Hlines. rewrite <- (run_framedLines host query).
    apply stdout_lines_in_order; [exact Hev|].
    rewrite (run_framedLines host query), Hlines.
    cbn [removelast forallb]. rewrite Hq. reflexivity. }
  cbn [handleLines] in Hcore.
  rewrite (@handleLine_handshake query initLine start eq_refl Hc1) in Hcore.
  rewrite (@handleLine_response query respLine text _ Hr Hc2 Hp) in Hcore.
  assert (He : effects (run host query events) =
               [StdinWrite initializeRequest;
                StdinWrite initializedNotification;
                StdinWrite (searchRequest query); ClearTimeout; Kill;
                Resolve (parseSearchResults text)])
    by exact (f_equal snd Hcore).
  split; [exact He|]. unfold outcome. rewrite He. reflexivity.
Qed.

(** The two sample responses, cut into three chunks in the middle of
    lines. *)
Lemma exchange_resolves_witness :
  outcome
    (run sampleHost sampleQuery
       [StdoutData (firstn 30 (initializeResponse ++ [LF]));
        StdoutData (skipn 30 (initializeResponse ++ [LF])
                      ++ firstn 50 searchResponse);
        StdoutData (skipn 50 searchResponse ++ [LF])])
  = Some (Fulfilled [fixCrash]).
Proof.
  refine (proj2
            (@exchange_resolves sampleHost sampleQuery
               [StdoutData (firstn 30 (initializeResponse ++ [LF]));
                StdoutData (skipn 30 (initializeResponse ++ [LF])
                              ++ firstn 50 searchResponse);
                StdoutData (skipn 50 searchResponse ++ [LF])]
               initializeResponse searchResponse
               (js "## Fix crash" ++ LF ::
                  js "- URL: https://github.com/org/repo/issues/1")
               _ _ _ _ _ _ _ _));
    vm_compute; reflexivity.
Defined.

